(** * Trend merge utilities (src/utils/main-utils.js)

    A shallow embedding of [mainUtils]: the weighted sentiment merge and the
    keyword merge of [updateExistingTrend], the record assembly of
    [processTrend] / [createNewTrend], the reconciler [removeOldTrends] and
    the completion counting of [update].

    JavaScript numbers are IEEE 754 binary64 values; they are modelled by
    Rocq's primitive floats, whose operations are specified in [SpecFloat]. *)

From Stdlib Require Import ZArith Lia Floats.
From stdpp Require Import base decidable list sorting strings gmap.

(** ** JavaScript numbers *)

Module JsNumber.

Local Open Scope float_scope.

(** [x === y] on numbers, except that two NaNs are also identified
    (ECMAScript's SameValueZero): it does not tell [+0] from [-0]. *)
Definition sameValueZero (x y : float) : bool :=
  (x =? y) || (is_nan x && is_nan y).

(** The sign carried by every non-NaN number. *)
Definition sf_nonneg (x : spec_float) : bool :=
  match x with
  | S754_zero _ => true
  | S754_infinity s | S754_finite s _ _ => negb s
  | S754_nan => false
  end.

Definition sf_is_zero (x : spec_float) : bool :=
  match x with S754_zero _ => true | _ => false end.

Definition sf_is_nan (x : spec_float) : bool :=
  match x with S754_nan => true | _ => false end.

Definition sf_is_finite (x : spec_float) : bool :=
  match x with S754_zero _ | S754_finite _ _ _ => true | _ => false end.

End JsNumber.

(** ** JavaScript arrays and objects used by the module *)

Module Js.

(** Property names every object literal inherits from [Object.prototype].
    Each of them reads as a truthy value (a function, or the prototype
    object itself for [__proto__]). *)
Definition Object_prototype : list string :=
  [ "constructor"; "__defineGetter__"; "__defineSetter__"; "hasOwnProperty";
    "__lookupGetter__"; "__lookupSetter__"; "isPrototypeOf";
    "propertyIsEnumerable"; "toString"; "valueOf"; "__proto__";
    "toLocaleString" ]%string.

(** An object literal [{}] whose own properties are only ever assigned
    [true]: it is represented by the set of its own property names. *)
Definition Obj := gset string.

Definition empty_object : Obj := ∅.

(** Truthiness of [o[k]]: an own property (always [true] here), else the
    property found along the prototype chain, else [undefined]. *)
Definition truthy_get (o : Obj) (k : string) : bool :=
  bool_decide (k ∈ o) || bool_decide (k ∈ Object_prototype).

(** [o[k] = true]. Assigning a non-object to [__proto__] goes to the
    inherited setter and leaves the object as it is. *)
Definition set_true (o : Obj) (k : string) : Obj :=
  if bool_decide (k = "__proto__"%string) then o else {[ k ]} ∪ o.

Section Arrays.
Context {A : Type}.

(** [l.filter(cb)] for a callback that reads and updates captured state:
    the callback runs once per element, in index order. *)
Fixpoint filter_with {S : Type} (cb : S → A → bool * S) (s : S)
    (l : list A) : list A :=
  match l with
  | [] => []
  | x :: l' =>
      let '(keep, s') := cb s x in
      if keep then x :: filter_with cb s' l' else filter_with cb s' l'
  end.

(** [l.sort(compareFn)]: the sort is stable (ECMAScript 2019), and
    [compareFn a b > 0] asks for [b] before [a]. An element is inserted
    past exactly the elements it must strictly follow. *)
Fixpoint sort_insert (compareFn : A → A → Z) (x : A) (l : list A) : list A :=
  match l with
  | [] => [x]
  | y :: l' =>
      if (0 <? compareFn x y)%Z then y :: sort_insert compareFn x l'
      else x :: y :: l'
  end.

Definition sort (compareFn : A → A → Z) (l : list A) : list A :=
  foldr (sort_insert compareFn) [] l.

(** [l.slice(start, end)]: a negative index counts from the end of the
    array, and both indices are clamped to [0 .. l.length]. *)
Definition slice (l : list A) (start end_ : Z) : list A :=
  let len := Z.of_nat (length l) in
  let k := if (start <? 0)%Z then Z.max (len + start) 0 else Z.min start len in
  let final := if (end_ <? 0)%Z then Z.max (len + end_) 0 else Z.min end_ len in
  take (Z.to_nat (final - k)) (drop (Z.to_nat k) l).
End Arrays.

End Js.

(** ** Data model *)

Record Keyword := mkKeyword { word : string; occurences : Z }.

(** Data the tweet stream collected for one trend. *)
Module StreamData.
Record t := mk {
  sentiment : float;
  tweets_analyzed : float;
  keywords : list Keyword
}.
End StreamData.

(** A trend as returned by the trends module. *)
Module TrendData.
Record t := mk { name : string; rank : Z }.
End TrendData.

(** A trend document; tweets and articles are opaque payloads. *)
Module Trend.
Record t {Tweet Article : Type} := mk {
  name : string;
  rank : Z;
  sentiment_score : float;
  sentiment_description : string;
  tweets_analyzed : float;
  keywords : list Keyword;
  tweets : list Tweet;
  articles : list Article
}.
Arguments t : clear implicits.
Arguments mk {Tweet Article}.

(** Modelled from the spec: the record store behind [models/trend] (a
    collection of documents queried by name), with the operations the
    module calls on it. *)
Inductive Query :=
| NameEq (n : string)          (* {name: n} *)
| NameNin (ns : list string).  (* {name: {$nin: ns}} *)

Section Store.
Context {Tweet Article : Type}.
Local Abbreviation doc := (t Tweet Article).

Definition matches (q : Query) (d : doc) : bool :=
  match q with
  | NameEq n => bool_decide (name d = n)
  | NameNin ns => bool_decide (name d ∉ ns)
  end.

Definition findOne (q : Query) (store : list doc) : option doc :=
  List.find (matches q) store.

(** The first matching document is replaced by [set d]. *)
Fixpoint findOneAndUpdate (q : Query) (set : doc → doc)
    (store : list doc) : list doc :=
  match store with
  | [] => []
  | d :: store' =>
      if matches q d then set d :: store'
      else d :: findOneAndUpdate q set store'
  end.

Definition save (d : doc) (store : list doc) : list doc := store ++ [d].

Definition remove (q : Query) (store : list doc) : list doc :=
  List.filter (λ d, negb (matches q d)) store.
End Store.
End Trend.

(** ** The module [mainUtils] *)

Section MainUtils.
Context {Tweet Article : Type}.
(** [sentimentUtils.getSentimentDescription] *)
Variable getSentimentDescription : float → string.
(** [config.maxKeywordsPerTrend] *)
Variable maxKeywordsPerTrend : Z.

Local Abbreviation doc := (Trend.t Tweet Article).
Local Open Scope float_scope.

(** [removeOldTrends]: [Trend.remove({name: {$nin: currTrends}})]. *)
Definition removeOldTrends (currTrends : list string) (store : list doc)
    : list doc :=
  Trend.remove (Trend.NameNin currTrends) store.

(** *** [updateExistingTrend] *)

Definition newTweetsAnalyzed (existingTrendData currentTrendData : doc)
    : float :=
  Trend.tweets_analyzed existingTrendData
  + Trend.tweets_analyzed currentTrendData.

Definition newSentimentScore (existingTrendData currentTrendData : doc)
    : float :=
  if 0 <? newTweetsAnalyzed existingTrendData currentTrendData
  then (Trend.sentiment_score currentTrendData
          * Trend.tweets_analyzed currentTrendData
        + Trend.sentiment_score existingTrendData
          * Trend.tweets_analyzed existingTrendData)
       / newTweetsAnalyzed existingTrendData currentTrendData
  else 0.

(** The divisors of the divisions evaluated while computing
    [newSentimentScore] (none when the conditional takes its else branch). *)
Definition sentimentDivisors (existingTrendData currentTrendData : doc)
    : list float :=
  if 0 <? newTweetsAnalyzed existingTrendData currentTrendData
  then [newTweetsAnalyzed existingTrendData currentTrendData]
  else [].

(** The callback given to [filter]; [keywordsExisting] is its captured
    object. *)
Definition seenFilter (keywordsExisting : Js.Obj) (keyword : Keyword)
    : bool * Js.Obj :=
  if Js.truthy_get keywordsExisting (word keyword)
  then (false, keywordsExisting)
  else (true, Js.set_true keywordsExisting (word keyword)).

(** [existing.concat(incoming).filter(...)] *)
Definition dedupKeywords (existing incoming : list Keyword) : list Keyword :=
  Js.filter_with seenFilter Js.empty_object (existing ++ incoming).

Definition byOccurences (a b : Keyword) : Z := occurences b - occurences a.

(** The keyword merge: concat, filter, sort, slice. *)
Definition mergeKeywords (existing incoming : list Keyword) (maxCount : Z)
    : list Keyword :=
  Js.slice (Js.sort byOccurences (dedupKeywords existing incoming)) 0 maxCount.

(** The document after the [$set] of [updateExistingTrend]. *)
Definition updatedTrend (existingTrendData currentTrendData d : doc) : doc :=
  let score := newSentimentScore existingTrendData currentTrendData in
  Trend.mk (Trend.name d)
    (Trend.rank currentTrendData)
    score
    (getSentimentDescription score)
    (newTweetsAnalyzed existingTrendData currentTrendData)
    (mergeKeywords (Trend.keywords existingTrendData)
       (Trend.keywords currentTrendData) maxKeywordsPerTrend)
    (Trend.tweets currentTrendData)
    (Trend.articles currentTrendData).

Definition updateExistingTrend (existingTrendData currentTrendData : doc)
    (store : list doc) : list doc :=
  Trend.findOneAndUpdate (Trend.NameEq (Trend.name existingTrendData))
    (updatedTrend existingTrendData currentTrendData) store.

(** *** [createNewTrend] and [processTrend] *)

Definition createNewTrend (trendData : doc) (store : list doc) : list doc :=
  Trend.save trendData store.

(** [_.extend(trendData, {...})] *)
Definition fullTrendData (trendData : TrendData.t)
    (newsArticles : list Article) (tweets : list Tweet)
    (streamData : option StreamData.t) : doc :=
  Trend.mk (TrendData.name trendData)
    (TrendData.rank trendData)
    (match streamData with Some s => StreamData.sentiment s | None => 0 end)
    (match streamData with
     | Some s => getSentimentDescription (StreamData.sentiment s)
     | None => "No Data"%string
     end)
    (match streamData with
     | Some s => StreamData.tweets_analyzed s
     | None => 0
     end)
    (match streamData with Some s => StreamData.keywords s | None => [] end)
    tweets
    newsArticles.

Definition processTrend (trendData : TrendData.t)
    (newsArticles : list Article) (tweets : list Tweet)
    (streamData : option StreamData.t) (store : list doc) : list doc :=
  let full := fullTrendData trendData newsArticles tweets streamData in
  match Trend.findOne (Trend.NameEq (TrendData.name trendData)) store with
  | Some d => updateExistingTrend d full store
  | None => createNewTrend full store
  end.

(** The document [processTrend] writes to the store. *)
Definition writtenTrend (trendData : TrendData.t)
    (newsArticles : list Article) (tweets : list Tweet)
    (streamData : option StreamData.t) (store : list doc) : doc :=
  let full := fullTrendData trendData newsArticles tweets streamData in
  match Trend.findOne (Trend.NameEq (TrendData.name trendData)) store with
  | Some d => updatedTrend d full d
  | None => full
  end.

End MainUtils.

(** ** [update]: the fan-out and its completion counter

    The promise returned by [update] is settled only by the callbacks the
    executor registers. The state below holds what those callbacks can
    read or write; a step is one callback run by the event loop. *)

Module Update.

Inductive PromiseState := Pending | Fulfilled | Rejected.

(** Where the callback chain of one trend stands. *)
Inductive Phase {Tweet Article : Type} :=
| AwaitNews                                   (* [getNews] was called *)
| AwaitTweets (newsArticles : list Article)   (* [getTweetSample] is pending *)
| AwaitProcess (newsArticles : list Article) (tweets : list Tweet)
                                              (* [processTrend] is pending *)
| Counted                                     (* [trendsProcessed++] has run *)
| Dropped.                                    (* a promise of the chain was
                                                 rejected: no handler runs *)
Arguments Phase : clear implicits.

Record State {Tweet Article : Type} := mkState {
  store : list (Trend.t Tweet Article);
  removePending : bool;
  tasks : list (TrendData.t * Phase Tweet Article);
  trendsProcessed : nat;
  outcome : PromiseState
}.
Arguments State : clear implicits.
Arguments mkState {Tweet Article}.

(** The callback chains that reached [trendsProcessed++]. *)
Definition isCounted {Tweet Article : Type}
    (task : TrendData.t * Phase Tweet Article) : bool :=
  match task.2 with Counted => true | _ => false end.

Definition counted {Tweet Article : Type}
    (tasks : list (TrendData.t * Phase Tweet Article)) : nat :=
  length (List.filter isCounted tasks).

(** [resolve()]: settling an already settled promise does nothing. *)
Definition resolve (p : PromiseState) : PromiseState :=
  match p with Pending => Fulfilled | _ => p end.

Section Steps.
Context {Tweet Article : Type}.
Variable getSentimentDescription : float → string.
Variable maxKeywordsPerTrend : Z.
(** The arguments of [update]: [trends] and [tweetStream.getData()]. *)
Variable trends : list TrendData.t.
Variable streamData : gmap string StreamData.t.

Local Abbreviation state := (State Tweet Article).

(** The state when the executor returns: [removeOldTrends] was issued,
    the counter is zero and [forEach] called [getNews] once per trend. *)
Definition init (store0 : list (Trend.t Tweet Article)) : state :=
  mkState store0 true
    ((λ trendData, (trendData, AwaitNews)) <$> trends) 0 Pending.

(** The innermost callback: count, and resolve when all are counted. *)
Definition countTrend (s : state) : nat * PromiseState :=
  let trendsProcessed' := S (trendsProcessed s) in
  (trendsProcessed',
   if bool_decide (trendsProcessed' = length trends)
   then resolve (outcome s) else outcome s).

Inductive step : state → state → Prop :=
| step_remove s :
    removePending s = true →
    step s (mkState (removeOldTrends (TrendData.name <$> trends) (store s))
              false (tasks s) (trendsProcessed s) (outcome s))
| step_news s i trendData newsArticles :
    tasks s !! i = Some (trendData, AwaitNews) →
    step s (mkState (store s) (removePending s)
              (<[i := (trendData, AwaitTweets newsArticles)]> (tasks s))
              (trendsProcessed s) (outcome s))
| step_tweets s i trendData newsArticles tweets :
    tasks s !! i = Some (trendData, AwaitTweets newsArticles) →
    step s (mkState (store s) (removePending s)
              (<[i := (trendData, AwaitProcess newsArticles tweets)]> (tasks s))
              (trendsProcessed s) (outcome s))
| step_tweets_rejected s i trendData newsArticles :
    tasks s !! i = Some (trendData, AwaitTweets newsArticles) →
    step s (mkState (store s) (removePending s)
              (<[i := (trendData, Dropped)]> (tasks s))
              (trendsProcessed s) (outcome s))
| step_processed s i trendData newsArticles tweets :
    tasks s !! i = Some (trendData, AwaitProcess newsArticles tweets) →
    step s (mkState
              (processTrend getSentimentDescription maxKeywordsPerTrend
                 trendData newsArticles tweets
                 (streamData !! TrendData.name trendData) (store s))
              (removePending s)
              (<[i := (trendData, Counted)]> (tasks s))
              (countTrend s).1 (countTrend s).2)
| step_process_rejected s i trendData newsArticles tweets :
    tasks s !! i = Some (trendData, AwaitProcess newsArticles tweets) →
    step s (mkState (store s) (removePending s)
              (<[i := (trendData, Dropped)]> (tasks s))
              (trendsProcessed s) (outcome s)).

Definition reachable (store0 : list (Trend.t Tweet Article)) (s : state)
    : Prop :=
  rtc step (init store0) s.

(** What every reachable state satisfies: one chain per trend, the counter
    counts the chains that completed, and the promise is fulfilled exactly
    when the counter has reached a non-zero [trends.length]. *)
Definition completion_invariant (s : state) : Prop :=
  length (tasks s) = length trends
  ∧ trendsProcessed s = counted (tasks s)
  ∧ outcome s
    = (if bool_decide (0 < length trends ∧ trendsProcessed s = length trends)
       then Fulfilled else Pending).
End Steps.

End Update.

(** ** The keyword merge in the words of the specification

    "Scan in the concatenated order; keep the first occurrence of each
    distinct word value and discard subsequent ones with the same word."
    [seen] lists the words already met. *)

Fixpoint firstOccurrencesFrom (seen : list string) (l : list Keyword)
    : list Keyword :=
  match l with
  | [] => []
  | keyword :: l' =>
      if bool_decide (word keyword ∈ seen) then firstOccurrencesFrom seen l'
      else keyword :: firstOccurrencesFrom (word keyword :: seen) l'
  end.

Definition firstOccurrences (l : list Keyword) : list Keyword :=
  firstOccurrencesFrom [] l.

(** [a] and [b] both occur in [l], each at the first position that carries
    its word, and [a] comes first. *)
Definition first_seen_before (a b : Keyword) (l : list Keyword) : Prop :=
  ∃ l1 l2 l3,
    l = l1 ++ a :: l2 ++ b :: l3
    ∧ (word a ∉ (word <$> l1))
    ∧ (word b ∉ (word <$> (l1 ++ a :: l2))).

(** [a] occurs before [b] in [l]. *)
Definition precedes (a b : Keyword) (l : list Keyword) : Prop :=
  ∃ l1 l2 l3, l = l1 ++ a :: l2 ++ b :: l3.

(** Non-ascending order of [occurences]. *)
Definition occurences_ge (a b : Keyword) : Prop :=
  (occurences b ≤ occurences a)%Z.

(** ** Abstractions used in the proofs *)

(** The captured object answers "seen" exactly for the words of [blocked]. *)
Definition represents (keywordsExisting : Js.Obj) (blocked : list string)
    : Prop :=
  ∀ w, Js.truthy_get keywordsExisting w = bool_decide (w ∈ blocked).

(** The number of entries [l.slice(0, end)] returns. *)
Definition sliceLength {A} (l : list A) (end_ : Z) : nat :=
  Z.to_nat (if (end_ <? 0)%Z then Z.max (Z.of_nat (length l) + end_) 0
            else Z.min end_ (Z.of_nat (length l))).

(** ** Sample data *)

Module Samples.
Local Open Scope float_scope.

(** A label lookup standing for [sentimentUtils.getSentimentDescription]. *)
Definition describe (score : float) : string :=
  if score <? 0 then "Negative"%string else "Positive"%string.

Definition trend (name : string) (score weight : float)
    (keywords : list Keyword) : Trend.t unit unit :=
  Trend.mk name 1%Z score (describe score) weight keywords [] [].

Definition stream (score weight : float) (keywords : list Keyword)
    : StreamData.t :=
  StreamData.mk score weight keywords.

(** The double nearest to one tenth. *)
Definition tenth : float := 0x1.999999999999ap-4.
End Samples.

(** * Properties *)

(** ** Facts about JavaScript numbers *)

Module JsNumberFacts.
Import JsNumber.
Local Open Scope float_scope.

Lemma add_comm (x y : float) : x + y = y + x.
Proof.
  apply Prim2SF_inj. rewrite !add_spec. unfold SF64add.
  destruct (Prim2SF x) as [[] | [] | | [] mx ex],
           (Prim2SF y) as [[] | [] | | [] my ey]; try reflexivity;
    cbn [SFadd]; rewrite (Z.min_comm ey ex); f_equal; apply Z.add_comm.
Qed.

Lemma leb_zero_spec (x : float) : (0 <=? x) = sf_nonneg (Prim2SF x).
Proof.
  rewrite FloatAxioms.leb_spec. change (Prim2SF 0) with (S754_zero false).
  unfold SFleb. destruct (Prim2SF x) as [[] | [] | | [] m e]; reflexivity.
Qed.

Lemma ltb_zero_spec (x : float) :
  (0 <? x) = sf_nonneg (Prim2SF x) && negb (sf_is_zero (Prim2SF x)).
Proof.
  rewrite FloatAxioms.ltb_spec. change (Prim2SF 0) with (S754_zero false).
  unfold SFltb. destruct (Prim2SF x) as [[] | [] | | [] m e]; reflexivity.
Qed.

Lemma eqb_zero_spec (x : float) : (x =? 0) = sf_is_zero (Prim2SF x).
Proof.
  rewrite FloatAxioms.eqb_spec. change (Prim2SF 0) with (S754_zero false).
  unfold SFeqb. destruct (Prim2SF x) as [[] | [] | | [] m e]; reflexivity.
Qed.

Lemma SFcompare_refl (x : spec_float) :
  sf_is_nan x = false → SFcompare x x = Some Eq.
Proof.
  destruct x as [[] | [] | | [] m e]; try reflexivity; try discriminate;
    intros _; cbn [SFcompare]; rewrite Z.compare_refl;
    change (Pos.compare_cont Eq m m) with (Pos.compare m m);
    rewrite Pos.compare_refl; reflexivity.
Qed.

Lemma is_nan_spec (x : float) : is_nan x = sf_is_nan (Prim2SF x).
Proof.
  unfold is_nan. rewrite FloatAxioms.eqb_spec. unfold SFeqb.
  destruct (sf_is_nan (Prim2SF x)) eqn:E.
  - destruct (Prim2SF x); try discriminate. reflexivity.
  - rewrite SFcompare_refl by assumption. reflexivity.
Qed.

Lemma sameValueZero_refl (x : float) : sameValueZero x x = true.
Proof.
  unfold sameValueZero. rewrite is_nan_spec, FloatAxioms.eqb_spec. unfold SFeqb.
  destruct (sf_is_nan (Prim2SF x)) eqn:E.
  - apply orb_true_r.
  - rewrite SFcompare_refl by assumption. reflexivity.
Qed.

(** Rounding keeps a non-negative mantissa non-negative, so the rounded
    result of a non-negative finite sum is never NaN and never negative. *)
Lemma shr_1_nonneg (mrs : shr_record) :
  (0 ≤ shr_m mrs)%Z → (0 ≤ shr_m (shr_1 mrs))%Z.
Proof.
  destruct mrs as [[| [p | p |] | p] r s]; cbn; lia.
Qed.

Lemma iter_pos_shr_1_nonneg (p : positive) (mrs : shr_record) :
  (0 ≤ shr_m mrs)%Z → (0 ≤ shr_m (SpecFloat.iter_pos shr_1 p mrs))%Z.
Proof.
  revert mrs. induction p as [p IH | p IH |]; intros mrs H; cbn.
  - apply IH, IH, shr_1_nonneg, H.
  - apply IH, IH, H.
  - apply shr_1_nonneg, H.
Qed.

Lemma shr_fexp_nonneg (m e : Z) (l : location) :
  (0 ≤ m)%Z → (0 ≤ shr_m (fst (shr_fexp prec emax m e l)))%Z.
Proof.
  intros H. unfold shr_fexp, shr.
  assert (H0 : (0 ≤ shr_m (shr_record_of_loc m l))%Z)
    by (destruct l as [| []]; exact H).
  destruct (_ - e)%Z; cbn [fst]; [assumption | | assumption].
  apply iter_pos_shr_1_nonneg, H0.
Qed.

Lemma round_nearest_even_nonneg (m : Z) (l : location) :
  (0 ≤ m)%Z → (0 ≤ round_nearest_even m l)%Z.
Proof.
  intros H. destruct l as [| []]; cbn; try destruct (Z.even m); lia.
Qed.

Lemma binary_round_aux_nonneg (m e : Z) (l : location) :
  (0 ≤ m)%Z → sf_nonneg (binary_round_aux prec emax false m e l) = true.
Proof.
  intros H. unfold binary_round_aux.
  pose proof (shr_fexp_nonneg m e l H) as H1.
  destruct (shr_fexp prec emax m e l) as [mrs' e'] eqn:E1. cbn [fst] in H1.
  pose proof (shr_fexp_nonneg _ e' loc_Exact
                (round_nearest_even_nonneg _ (loc_of_shr_record mrs') H1)) as H2.
  destruct (shr_fexp prec emax (round_nearest_even _ _) e' loc_Exact)
    as [mrs'' e''] eqn:E2.
  cbn [fst] in H2. destruct (shr_m mrs'') as [| p | p]; [reflexivity | | lia].
  destruct (Z.leb e'' _); reflexivity.
Qed.

Lemma binary_normalize_nonneg (m e : Z) :
  (0 ≤ m)%Z → sf_nonneg (binary_normalize prec emax m e false) = true.
Proof.
  intros H. destruct m as [| p | p]; [reflexivity | | lia].
  cbn [binary_normalize]. unfold binary_round.
  destruct (shl_align p e _) as [mz ez]. apply binary_round_aux_nonneg. lia.
Qed.

Lemma SFadd_nonneg (x y : spec_float) :
  sf_nonneg x = true → sf_nonneg y = true → sf_nonneg (SF64add x y) = true.
Proof.
  destruct x as [[] | [] | | [] mx ex], y as [[] | [] | | [] my ey];
    try discriminate; try reflexivity.
  intros _ _. unfold SF64add. cbn [SFadd cond_Zopp].
  apply binary_normalize_nonneg. lia.
Qed.

Lemma add_nonneg (x y : float) :
  (0 <=? x) = true → (0 <=? y) = true → (0 <=? x + y) = true.
Proof.
  rewrite !leb_zero_spec, add_spec. apply SFadd_nonneg.
Qed.

(** A non-negative number is either zero or positive. *)
Lemma nonneg_ltb_eqb (x : float) :
  (0 <=? x) = true → (0 <? x) = negb (x =? 0).
Proof.
  rewrite leb_zero_spec, ltb_zero_spec, eqb_zero_spec. intros ->. reflexivity.
Qed.

End JsNumberFacts.

(** [is_finite], zero products and sums with a zero, read on [spec_float]. *)
Module JsNumberZero.
Import JsNumber JsNumberFacts.
Local Open Scope float_scope.

Lemma is_finite_spec (x : float) : is_finite x = sf_is_finite (Prim2SF x).
Proof.
  unfold is_finite, is_infinity. rewrite is_nan_spec, FloatAxioms.eqb_spec, abs_spec.
  change (Prim2SF infinity) with (S754_infinity false). unfold SFeqb.
  destruct (Prim2SF x) as [[] | [] | | [] m e]; reflexivity.
Qed.

Lemma zero_add_pos (z x : float) :
  (z =? 0) = true → (0 <? x) = true → z + x = x.
Proof.
  rewrite eqb_zero_spec, ltb_zero_spec. intros Hz Hx.
  apply Prim2SF_inj. rewrite add_spec. unfold SF64add.
  destruct (Prim2SF z) as [sz | | |]; try discriminate.
  destruct (Prim2SF x) as [[] | [] | | [] m e]; try discriminate; reflexivity.
Qed.

Lemma finite_mul_zero (x z : float) :
  is_finite x = true → (z =? 0) = true → (x * z =? 0) = true.
Proof.
  rewrite is_finite_spec, !eqb_zero_spec, mul_spec. unfold SF64mul.
  destruct (Prim2SF x) as [[] | [] | | [] m e],
           (Prim2SF z) as [[] | | |]; try discriminate; reflexivity.
Qed.

(** Adding a zero changes at most the sign of a zero. *)
Lemma add_zero_r (x z : float) :
  (z =? 0) = true →
  x + z = x ∨ ((x =? 0) = true ∧ (x + z =? 0) = true).
Proof.
  rewrite !eqb_zero_spec, add_spec. intros Hz.
  destruct (sf_is_zero (Prim2SF x)) eqn:Hx.
  - right. split; [reflexivity |]. unfold SF64add.
    destruct (Prim2SF x) as [[] | | |], (Prim2SF z) as [[] | | |];
      try discriminate; reflexivity.
  - left. apply Prim2SF_inj. rewrite add_spec. unfold SF64add.
    destruct (Prim2SF x) as [[] | [] | | [] m e],
             (Prim2SF z) as [[] | | |]; try discriminate; reflexivity.
Qed.

(** Two zeros divided by the same positive number are the same value. *)
Lemma zero_div_pos (x y w : float) :
  (x =? 0) = true → (y =? 0) = true → (0 <? w) = true →
  sameValueZero (x / w) (y / w) = true.
Proof.
  unfold sameValueZero. rewrite !eqb_zero_spec, ltb_zero_spec.
  rewrite FloatAxioms.eqb_spec, !div_spec. unfold SF64div. intros Hx Hy Hw.
  destruct (Prim2SF x) as [[] | | |], (Prim2SF y) as [[] | | |],
           (Prim2SF w) as [[] | [] | | [] mw ew]; try discriminate; reflexivity.
Qed.

End JsNumberZero.

(** ** The weighted sentiment merge *)

Section SentimentMerge.
Context {Tweet Article : Type}.
Import JsNumber JsNumberFacts JsNumberZero.
Local Open Scope float_scope.
Local Abbreviation doc := (Trend.t Tweet Article).

Lemma newTweetsAnalyzed_nonneg (existing current : doc) :
  (0 <=? Trend.tweets_analyzed existing) = true →
  (0 <=? Trend.tweets_analyzed current) = true →
  (0 <? newTweetsAnalyzed existing current)
  = negb (newTweetsAnalyzed existing current =? 0).
Proof.
  intros He Hc. apply nonneg_ltb_eqb, add_nonneg; assumption.
Qed.

(** C3. For non-negative weights, a zero total weight gives the score 0
    without evaluating any division, and a positive total weight gives the
    weighted average, whose only division has a non-zero divisor. *)
Theorem newSentimentScore_zero_guard (existing current : doc) :
  (0 <=? Trend.tweets_analyzed existing) = true →
  (0 <=? Trend.tweets_analyzed current) = true →
  newSentimentScore existing current
  = (if Trend.tweets_analyzed existing + Trend.tweets_analyzed current =? 0
     then 0
     else (Trend.sentiment_score current * Trend.tweets_analyzed current
           + Trend.sentiment_score existing * Trend.tweets_analyzed existing)
          / (Trend.tweets_analyzed existing + Trend.tweets_analyzed current))
  ∧ sentimentDivisors existing current
    = (if Trend.tweets_analyzed existing + Trend.tweets_analyzed current =? 0
       then []
       else [Trend.tweets_analyzed existing + Trend.tweets_analyzed current])
  ∧ Forall (λ d, (d =? 0) = false) (sentimentDivisors existing current).
Proof.
  intros He Hc. unfold newSentimentScore, sentimentDivisors.
  rewrite (newTweetsAnalyzed_nonneg _ _ He Hc). unfold newTweetsAnalyzed.
  destruct (_ + _ =? 0) eqn:E; cbn [negb].
  - repeat split. constructor.
  - repeat split. constructor; [exact E | constructor].
Qed.

(** C5. Swapping the existing and the incoming side changes neither the
    merged score nor the new [tweets_analyzed], which is the plain sum of
    the two weights whichever branch the score takes. *)
Theorem newSentimentScore_swap (existing current : doc) :
  newSentimentScore existing current = newSentimentScore current existing
  ∧ newTweetsAnalyzed existing current = newTweetsAnalyzed current existing
  ∧ newTweetsAnalyzed existing current
    = Trend.tweets_analyzed existing + Trend.tweets_analyzed current
  ∧ ∀ getSentimentDescription maxKeywordsPerTrend d,
      Trend.tweets_analyzed
        (updatedTrend getSentimentDescription maxKeywordsPerTrend
           existing current d)
      = Trend.tweets_analyzed existing + Trend.tweets_analyzed current.
Proof.
  assert (Hn : newTweetsAnalyzed existing current
               = newTweetsAnalyzed current existing)
    by apply add_comm.
  repeat split; [| exact Hn].
  unfold newSentimentScore. rewrite Hn.
  destruct (0 <? _); [| reflexivity].
  f_equal. apply add_comm.
Qed.

(** With a zero existing weight and a positive incoming weight the merge
    divides [incoming.score * incoming.weight] by the incoming weight. *)
Lemma newSentimentScore_existing_zero (existing current : doc) :
  (Trend.tweets_analyzed existing =? 0) = true →
  (0 <? Trend.tweets_analyzed current) = true →
  newSentimentScore existing current
  = (Trend.sentiment_score current * Trend.tweets_analyzed current
     + Trend.sentiment_score existing * Trend.tweets_analyzed existing)
    / Trend.tweets_analyzed current.
Proof.
  intros He Hc. unfold newSentimentScore, newTweetsAnalyzed.
  rewrite (zero_add_pos _ _ He Hc), Hc. reflexivity.
Qed.

(** C6, as amended. With a zero existing weight, a finite existing score
    and a positive incoming weight, the merged score is the value of
    [(incoming.score * incoming.weight) / incoming.weight] in binary64
    arithmetic (compared as [===] does, NaN matching NaN). *)
Theorem newSentimentScore_existing_zero_weight (existing current : doc) :
  (Trend.tweets_analyzed existing =? 0) = true →
  (0 <? Trend.tweets_analyzed current) = true →
  is_finite (Trend.sentiment_score existing) = true →
  sameValueZero
    (newSentimentScore existing current)
    ((Trend.sentiment_score current * Trend.tweets_analyzed current)
     / Trend.tweets_analyzed current) = true.
Proof.
  intros He Hc Hs. rewrite (newSentimentScore_existing_zero _ _ He Hc).
  pose proof (finite_mul_zero _ _ Hs He) as Hz.
  destruct (add_zero_r (Trend.sentiment_score current
                        * Trend.tweets_analyzed current) _ Hz)
    as [-> | [Hx Hxz]].
  - apply sameValueZero_refl.
  - apply zero_div_pos; assumption.
Qed.

End SentimentMerge.

(** ** Deduplication of keywords *)

Section Dedup.

Lemma represents_empty : represents Js.empty_object Js.Object_prototype.
Proof.
  intros w. unfold Js.truthy_get, Js.empty_object.
  rewrite bool_decide_eq_false_2 by set_solver. reflexivity.
Qed.

Lemma represents_set_true (o : Js.Obj) (blocked : list string) (w : string) :
  represents o blocked → Js.truthy_get o w = false →
  represents (Js.set_true o w) (w :: blocked).
Proof.
  intros Hrep Hw w'. unfold Js.set_true.
  assert (Hproto : w ≠ "__proto__"%string).
  { intros ->. revert Hw. unfold Js.truthy_get.
    rewrite (bool_decide_eq_true_2 (_ ∈ Js.Object_prototype)).
    - rewrite orb_true_r. discriminate.
    - unfold Js.Object_prototype. set_solver. }
  rewrite bool_decide_eq_false_2 by exact Hproto.
  specialize (Hrep w'). unfold Js.truthy_get in *.
  destruct (decide (w' = w)) as [-> | Hne].
  - rewrite (bool_decide_eq_true_2 (w ∈ {[w]} ∪ o)) by set_solver.
    rewrite (bool_decide_eq_true_2 (w ∈ w :: blocked)) by set_solver.
    reflexivity.
  - rewrite (bool_decide_ext (w' ∈ {[w]} ∪ o) (w' ∈ o))
      by (rewrite elem_of_union, elem_of_singleton; tauto).
    rewrite Hrep. apply bool_decide_ext. rewrite elem_of_cons. tauto.
Qed.

(** The filter of the source is the scan of the specification started
    from the words the object already answers for. *)
Lemma filter_with_seenFilter (o : Js.Obj) (blocked : list string)
    (l : list Keyword) :
  represents o blocked →
  Js.filter_with seenFilter o l = firstOccurrencesFrom blocked l.
Proof.
  revert o blocked. induction l as [| k l IH]; intros o blocked Hrep;
    [reflexivity |].
  cbn [Js.filter_with firstOccurrencesFrom]. unfold seenFilter.
  rewrite <- (Hrep (word k)).
  destruct (Js.truthy_get o (word k)) eqn:E.
  - apply IH, Hrep.
  - f_equal. apply IH, represents_set_true; assumption.
Qed.

(** The source's filter behaves as if the property names of
    [Object.prototype] had been met before the scan starts. *)
Lemma dedupKeywords_spec (existing incoming : list Keyword) :
  dedupKeywords existing incoming
  = firstOccurrencesFrom Js.Object_prototype (existing ++ incoming).
Proof. apply filter_with_seenFilter, represents_empty. Qed.

Lemma firstOccurrencesFrom_ext (seen seen' : list string) (l : list Keyword) :
  (∀ k, k ∈ l → word k ∈ seen ↔ word k ∈ seen') →
  firstOccurrencesFrom seen l = firstOccurrencesFrom seen' l.
Proof.
  revert seen seen'. induction l as [| k l IH]; intros seen seen' H;
    [reflexivity |].
  cbn [firstOccurrencesFrom].
  rewrite (bool_decide_ext _ _ (H k (list_elem_of_here _ _))).
  destruct (bool_decide (word k ∈ seen')).
  - apply IH. intros k' Hk'. apply H. now right.
  - f_equal. apply IH. intros k' Hk'.
    rewrite !elem_of_cons, (H k') by now right. reflexivity.
Qed.

(** Away from the property names of [Object.prototype], the source keeps
    exactly the first occurrence of every word. *)
Lemma dedupKeywords_firstOccurrences (existing incoming : list Keyword) :
  (∀ k, k ∈ existing ++ incoming → word k ∉ Js.Object_prototype) →
  dedupKeywords existing incoming = firstOccurrences (existing ++ incoming).
Proof.
  intros H. rewrite dedupKeywords_spec. apply firstOccurrencesFrom_ext.
  intros k Hk. split; [intros Hp; destruct (H k Hk Hp) | inversion 1].
Qed.

Lemma firstOccurrencesFrom_elem (seen : list string) (l : list Keyword)
    (b : Keyword) :
  b ∈ firstOccurrencesFrom seen l →
  (word b ∉ seen)
  ∧ ∃ l2 l3, l = l2 ++ b :: l3 ∧ (word b ∉ (word <$> l2)).
Proof.
  revert seen. induction l as [| k l IH]; intros seen; cbn [firstOccurrencesFrom];
    [inversion 1 |].
  destruct (bool_decide (word k ∈ seen)) eqn:E.
  - apply bool_decide_eq_true in E. intros Hb.
    destruct (IH _ Hb) as (Hs & l2 & l3 & -> & Hl2). split; [exact Hs |].
    exists (k :: l2), l3. split; [reflexivity |].
    rewrite fmap_cons, not_elem_of_cons. split; [congruence | exact Hl2].
  - apply bool_decide_eq_false in E. rewrite elem_of_cons. intros [-> | Hb].
    + split; [exact E |]. exists [], l. split; [reflexivity | inversion 1].
    + destruct (IH _ Hb) as (Hs & l2 & l3 & -> & Hl2).
      rewrite not_elem_of_cons in Hs. destruct Hs as [Hne Hs].
      split; [exact Hs |]. exists (k :: l2), l3. split; [reflexivity |].
      rewrite fmap_cons, not_elem_of_cons. split; assumption.
Qed.

Lemma firstOccurrencesFrom_NoDup (seen : list string) (l : list Keyword) :
  NoDup (word <$> firstOccurrencesFrom seen l).
Proof.
  revert seen. induction l as [| k l IH]; intros seen; cbn [firstOccurrencesFrom];
    [constructor |].
  destruct (bool_decide (word k ∈ seen)); [apply IH |].
  rewrite fmap_cons. constructor; [| apply IH].
  intros (b & Hw & Hb)%list_elem_of_fmap.
  apply firstOccurrencesFrom_elem in Hb as [Hs _].
  apply Hs. rewrite <- Hw. now left.
Qed.

Lemma firstOccurrencesFrom_order (seen : list string) (l : list Keyword)
    (a b : Keyword) :
  [a; b] `sublist_of` firstOccurrencesFrom seen l → first_seen_before a b l.
Proof.
  revert seen. induction l as [| k l IH]; intros seen; cbn [firstOccurrencesFrom].
  - intros H. apply sublist_length in H. cbn in H. lia.
  - destruct (bool_decide (word k ∈ seen)) eqn:E.
    + apply bool_decide_eq_true in E. intros H.
      assert (Ha : a ∈ firstOccurrencesFrom seen l)
        by (eapply elem_of_sublist; [| exact H]; now left).
      assert (Hb : b ∈ firstOccurrencesFrom seen l)
        by (eapply elem_of_sublist; [| exact H]; right; now left).
      apply firstOccurrencesFrom_elem in Ha as [Ha _].
      apply firstOccurrencesFrom_elem in Hb as [Hb _].
      destruct (IH _ H) as (l1 & l2 & l3 & -> & H1 & H2).
      exists (k :: l1), l2, l3. split; [reflexivity |].
      rewrite <- !app_comm_cons, !fmap_cons, !not_elem_of_cons.
      repeat split; try assumption; congruence.
    + apply bool_decide_eq_false in E.
      intros [H | (l' & Heq & H)]%sublist_cons_r.
      * assert (Ha : a ∈ firstOccurrencesFrom (word k :: seen) l)
          by (eapply elem_of_sublist; [| exact H]; now left).
        assert (Hb : b ∈ firstOccurrencesFrom (word k :: seen) l)
          by (eapply elem_of_sublist; [| exact H]; right; now left).
        apply firstOccurrencesFrom_elem in Ha as [Ha _].
        apply firstOccurrencesFrom_elem in Hb as [Hb _].
        rewrite not_elem_of_cons in Ha, Hb.
        destruct (IH _ H) as (l1 & l2 & l3 & -> & H1 & H2).
        exists (k :: l1), l2, l3. split; [reflexivity |].
        rewrite <- !app_comm_cons, !fmap_cons, !not_elem_of_cons.
        repeat split; tauto.
      * injection Heq as <- <-.
        assert (Hb : b ∈ firstOccurrencesFrom (word a :: seen) l)
          by (eapply elem_of_sublist; [| exact H]; now left).
        apply firstOccurrencesFrom_elem in Hb as (Hb & l2 & l3 & -> & Hl2).
        rewrite not_elem_of_cons in Hb.
        exists [], l2, l3. split; [reflexivity |]. split; [inversion 1 |].
        rewrite app_nil_l, fmap_cons, not_elem_of_cons. tauto.
Qed.

End Dedup.

(** ** Sorting and slicing *)

Section SortSlice.

Lemma sort_insert_Permutation {A} (compareFn : A → A → Z) (x : A) (l : list A) :
  Js.sort_insert compareFn x l ≡ₚ x :: l.
Proof.
  induction l as [| y l IH]; cbn; [reflexivity |].
  destruct (0 <? compareFn x y)%Z; [| reflexivity].
  rewrite IH. apply Permutation_swap.
Qed.

Lemma sort_Permutation {A} (compareFn : A → A → Z) (l : list A) :
  Js.sort compareFn l ≡ₚ l.
Proof.
  induction l as [| x l IH]; cbn; [reflexivity |].
  rewrite sort_insert_Permutation. now apply Permutation_skip.
Qed.

(** Stability: sorting does not reorder the entries of one [occurences]
    value. *)
Lemma sort_insert_filter (n : Z) (x : Keyword) (l : list Keyword) :
  filter (λ k, occurences k = n) (Js.sort_insert byOccurences x l)
  = filter (λ k, occurences k = n) (x :: l).
Proof.
  induction l as [| y l IH]; [reflexivity |]. cbn [Js.sort_insert].
  unfold byOccurences at 1. destruct (Z.ltb_spec 0 (occurences y - occurences x)).
  - rewrite (filter_cons _ y), IH, !(filter_cons _ x), (filter_cons _ y).
    destruct (decide (occurences x = n)), (decide (occurences y = n));
      try reflexivity; lia.
  - reflexivity.
Qed.

Lemma sort_filter (n : Z) (l : list Keyword) :
  filter (λ k, occurences k = n) (Js.sort byOccurences l)
  = filter (λ k, occurences k = n) l.
Proof.
  induction l as [| x l IH]; [reflexivity |]. cbn [Js.sort foldr].
  fold (Js.sort byOccurences l).
  rewrite sort_insert_filter, !(filter_cons _ x), IH. reflexivity.
Qed.

Lemma sort_insert_sorted (x : Keyword) (l : list Keyword) :
  StronglySorted occurences_ge l →
  StronglySorted occurences_ge (Js.sort_insert byOccurences x l).
Proof.
  induction 1 as [| y l Hl IH Hy]; cbn [Js.sort_insert].
  - repeat constructor.
  - unfold byOccurences at 1.
    destruct (Z.ltb_spec 0 (occurences y - occurences x)).
    + constructor; [exact IH |].
      rewrite sort_insert_Permutation. constructor; [| exact Hy].
      unfold occurences_ge. lia.
    + constructor; [constructor; assumption |].
      constructor; [unfold occurences_ge; lia |].
      eapply Forall_impl; [exact Hy |]. unfold occurences_ge. intros; lia.
Qed.

Lemma sort_sorted (l : list Keyword) :
  StronglySorted occurences_ge (Js.sort byOccurences l).
Proof.
  induction l as [| x l IH]; [constructor |]. now apply sort_insert_sorted.
Qed.

Lemma precedes_sublist (a b : Keyword) (l : list Keyword) :
  precedes a b l ↔ [a; b] `sublist_of` l.
Proof.
  split.
  - intros (l1 & l2 & l3 & ->).
    apply sublist_inserts_l, sublist_skip, sublist_inserts_l, sublist_skip,
      sublist_nil_l.
  - intros (l1 & k & -> & (l2 & l3 & -> & _)%sublist_cons_l)%sublist_cons_l.
    now exists l1, l2, l3.
Qed.

Lemma sublist_filter_mono {A} (P : A → Prop) `{!∀ x, Decision (P x)}
    (l1 l2 : list A) :
  l1 `sublist_of` l2 → filter P l1 `sublist_of` filter P l2.
Proof.
  induction 1 as [| x l1 l2 Hl IH | x l1 l2 Hl IH]; [constructor | |].
  - rewrite !filter_cons. destruct (decide (P x)); [now apply sublist_skip | exact IH].
  - rewrite filter_cons. destruct (decide (P x)); [now apply sublist_cons | exact IH].
Qed.

Lemma sort_stable (a b : Keyword) (l : list Keyword) :
  occurences a = occurences b →
  [a; b] `sublist_of` Js.sort byOccurences l → [a; b] `sublist_of` l.
Proof.
  intros Hab H.
  set (P := λ k, occurences k = occurences a).
  assert (HP : filter P [a; b] = [a; b]).
  { rewrite !filter_cons, filter_nil. unfold P.
    destruct (decide (occurences a = occurences a)),
             (decide (occurences b = occurences a)); congruence. }
  rewrite <- HP. transitivity (filter P l); [| apply sublist_filter].
  unfold P. rewrite <- (sort_filter (occurences a) l). apply sublist_filter_mono, H.
Qed.

(** [l.slice(0, end)] is a prefix of [l]. *)
Lemma slice_0 {A} (l : list A) (end_ : Z) :
  Js.slice l 0 end_ = take (sliceLength l end_) l.
Proof.
  unfold Js.slice, sliceLength. change (0 <? 0)%Z with false. cbv iota.
  replace (Z.min 0 (Z.of_nat (length l))) with 0%Z by lia.
  rewrite Z.sub_0_r. reflexivity.
Qed.

Lemma slice_0_length {A} (l : list A) (end_ : Z) :
  (0 ≤ end_)%Z → (Z.of_nat (length (Js.slice l 0 end_)) ≤ end_)%Z.
Proof.
  intros H. rewrite slice_0, length_take. unfold sliceLength.
  destruct (Z.ltb_spec end_ 0); lia.
Qed.

End SortSlice.


(** ** The keyword merge *)

Section KeywordMerge.
Import Samples.

Lemma mergeKeywords_take (existing incoming : list Keyword) (maxCount : Z) :
  ∃ n, mergeKeywords existing incoming maxCount
       = take n (Js.sort byOccurences (dedupKeywords existing incoming)).
Proof. unfold mergeKeywords. rewrite slice_0. eauto. Qed.

Lemma mergeKeywords_NoDup (existing incoming : list Keyword) (maxCount : Z) :
  NoDup (word <$> mergeKeywords existing incoming maxCount).
Proof.
  destruct (mergeKeywords_take existing incoming maxCount) as [n ->].
  rewrite fmap_take. eapply sublist_NoDup; [| apply sublist_take].
  rewrite sort_Permutation, dedupKeywords_spec.
  apply firstOccurrencesFrom_NoDup.
Qed.

(** C1. A keyword whose word is a property name of [Object.prototype] is
    dropped at its first occurrence: on [{constructor, 5}] merged with
    [{a, 1}] the filter keeps only [{a, 1}], where the first occurrences of
    the concatenation are both keywords. *)
Theorem dedupKeywords_drops_inherited_name :
  dedupKeywords [mkKeyword "constructor" 5] [mkKeyword "a" 1]
  = [mkKeyword "a" 1]
  ∧ firstOccurrences ([mkKeyword "constructor" 5] ++ [mkKeyword "a" 1])
    = [mkKeyword "constructor" 5; mkKeyword "a" 1]
  ∧ mergeKeywords [mkKeyword "constructor" 5] [mkKeyword "a" 1] 10
    = [mkKeyword "a" 1].
Proof.
  split; [| split].
  - rewrite dedupKeywords_spec. reflexivity.
  - reflexivity.
  - vm_compute. reflexivity.
Qed.

(** C2, as stated, fails for a negative [maxCount]: [slice(0, -1)] drops
    the last entry only. *)
Lemma mergeKeywords_negative_maxCount :
  mergeKeywords [mkKeyword "a" 1; mkKeyword "b" 2] [] (-1) = [mkKeyword "b" 2]
  ∧ ¬ (∀ existing incoming maxCount,
         (Z.of_nat (length (mergeKeywords existing incoming maxCount))
          ≤ maxCount)%Z
         ∧ ((maxCount ≤ 0)%Z →
            mergeKeywords existing incoming maxCount = [])).
Proof.
  split; [vm_compute; reflexivity |]. intros H.
  destruct (H [mkKeyword "a" 1; mkKeyword "b" 2] [] (-1)%Z) as [Hlen _].
  vm_compute in Hlen. apply Hlen. reflexivity.
Qed.

(** C2, as amended. For every [maxCount >= 0] the merged list has at most
    [maxCount] entries, and it is empty for [maxCount = 0]. *)
Theorem mergeKeywords_length (existing incoming : list Keyword)
    (maxCount : Z) :
  (0 ≤ maxCount)%Z →
  (Z.of_nat (length (mergeKeywords existing incoming maxCount)) ≤ maxCount)%Z
  ∧ mergeKeywords existing incoming 0 = [].
Proof.
  intros H. split; [apply slice_0_length, H |].
  pose proof (slice_0_length
                (Js.sort byOccurences (dedupKeywords existing incoming)) 0
                (Z.le_refl 0)) as H0.
  unfold mergeKeywords. destruct (Js.slice _ 0 0); [reflexivity |].
  cbn [length] in H0. lia.
Qed.

Lemma mergeKeywords_length_witness :
  (0 ≤ 2)%Z
  ∧ (Z.of_nat (length (mergeKeywords [mkKeyword "a" 10]
                         [mkKeyword "a" 7; mkKeyword "b" 3; mkKeyword "c" 1]
                         2)) ≤ 2)%Z.
Proof.
  split; [lia |].
  apply (mergeKeywords_length [mkKeyword "a" 10]
           [mkKeyword "a" 7; mkKeyword "b" 3; mkKeyword "c" 1] 2).
  lia.
Defined.

(** C4. The merged list is sorted non-ascending by [occurences], and two
    of its entries with equal [occurences] stand in the order of their
    first occurrences in [existing ++ incoming]. *)
Theorem mergeKeywords_sorted_stable (existing incoming : list Keyword)
    (maxCount : Z) :
  StronglySorted occurences_ge (mergeKeywords existing incoming maxCount)
  ∧ ∀ a b,
      precedes a b (mergeKeywords existing incoming maxCount) →
      occurences a = occurences b →
      first_seen_before a b (existing ++ incoming).
Proof.
  destruct (mergeKeywords_take existing incoming maxCount) as [n ->].
  set (sorted := Js.sort byOccurences (dedupKeywords existing incoming)).
  split.
  - pose proof (sort_sorted (dedupKeywords existing incoming)) as H.
    fold sorted in H. rewrite <- (take_drop n sorted) in H.
    apply StronglySorted_app in H. tauto.
  - intros a b Hab Hocc. apply precedes_sublist in Hab.
    apply (firstOccurrencesFrom_order Js.Object_prototype).
    rewrite <- dedupKeywords_spec. apply sort_stable; [exact Hocc |].
    etransitivity; [exact Hab | apply sublist_take].
Qed.

Lemma mergeKeywords_sorted_stable_witness :
  first_seen_before (mkKeyword "b" 2) (mkKeyword "c" 2)
    ([mkKeyword "a" 1; mkKeyword "b" 2] ++ [mkKeyword "c" 2; mkKeyword "d" 3]).
Proof.
  apply (proj2 (mergeKeywords_sorted_stable
                  [mkKeyword "a" 1; mkKeyword "b" 2]
                  [mkKeyword "c" 2; mkKeyword "d" 3] 3)).
  - exists [mkKeyword "d" 3], [], []. vm_compute. reflexivity.
  - reflexivity.
Defined.

End KeywordMerge.

(** ** Records written by [processTrend] *)

Section ProcessTrend.
Context {Tweet Article : Type}.
Variable getSentimentDescription : float → string.
Variable maxKeywordsPerTrend : Z.
Import Samples.
Local Open Scope float_scope.
Local Abbreviation doc := (Trend.t Tweet Article).

Lemma findOneAndUpdate_writes (q : Trend.Query) (set : doc → doc)
    (store : list doc) (d : doc) :
  Trend.findOne q store = Some d → set d ∈ Trend.findOneAndUpdate q set store.
Proof.
  unfold Trend.findOne. induction store as [| d' store IH]; [discriminate |].
  cbn [List.find Trend.findOneAndUpdate]. destruct (Trend.matches q d').
  - intros [= ->]. now left.
  - intros H. right. exact (IH H).
Qed.

Lemma processTrend_writes (trendData : TrendData.t)
    (newsArticles : list Article) (tweets : list Tweet)
    (streamData : option StreamData.t) (store : list doc) :
  writtenTrend getSentimentDescription maxKeywordsPerTrend trendData
    newsArticles tweets streamData store
  ∈ processTrend getSentimentDescription maxKeywordsPerTrend trendData
      newsArticles tweets streamData store.
Proof.
  unfold writtenTrend, processTrend.
  destruct (Trend.findOne _ store) as [d |] eqn:E.
  - unfold updateExistingTrend. apply findOneAndUpdate_writes.
    pose proof (List.find_some _ _ E) as [_ Hm].
    cbn [Trend.matches] in Hm. apply bool_decide_eq_true in Hm.
    rewrite Hm. exact E.
  - unfold createNewTrend, Trend.save. apply elem_of_app. right. now left.
Qed.

(** C7, as amended. With [maxKeywordsPerTrend >= 0], a record written by
    the merge has at most that many keywords, all with different words; a
    record created for a brand-new trend carries the keywords of the stream
    data as they are. *)
Theorem writtenTrend_keywords (trendData : TrendData.t)
    (newsArticles : list Article) (tweets : list Tweet)
    (streamData : option StreamData.t) (store : list doc) :
  (0 ≤ maxKeywordsPerTrend)%Z →
  writtenTrend getSentimentDescription maxKeywordsPerTrend trendData
    newsArticles tweets streamData store
  ∈ processTrend getSentimentDescription maxKeywordsPerTrend trendData
      newsArticles tweets streamData store
  ∧ match Trend.findOne (Trend.NameEq (TrendData.name trendData)) store with
    | Some _ =>
        NoDup (word <$> Trend.keywords
                 (writtenTrend getSentimentDescription maxKeywordsPerTrend
                    trendData newsArticles tweets streamData store))
        ∧ (Z.of_nat (length (Trend.keywords
                       (writtenTrend getSentimentDescription
                          maxKeywordsPerTrend trendData newsArticles tweets
                          streamData store)))
           ≤ maxKeywordsPerTrend)%Z
    | None =>
        Trend.keywords
          (writtenTrend getSentimentDescription maxKeywordsPerTrend
             trendData newsArticles tweets streamData store)
        = match streamData with
          | Some s => StreamData.keywords s
          | None => []
          end
    end.
Proof.
  intros Hmax. split; [apply processTrend_writes |].
  unfold writtenTrend.
  destruct (Trend.findOne _ store) as [d |]; cbn [Trend.keywords updatedTrend].
  - split; [apply mergeKeywords_NoDup |].
    unfold mergeKeywords. apply slice_0_length, Hmax.
  - destruct streamData; reflexivity.
Qed.

(** C8. For a trend with no record in the store, [processTrend] saves a
    record with score 0, label "No Data", 0 tweets analysed and no keywords
    when there is no stream data, and with the stream's sentiment, its
    label, its [tweets_analyzed] and its keywords otherwise. *)
Theorem processTrend_new_trend (trendData : TrendData.t)
    (newsArticles : list Article) (tweets : list Tweet) (store : list doc) :
  Trend.findOne (Trend.NameEq (TrendData.name trendData)) store = None →
  processTrend getSentimentDescription maxKeywordsPerTrend trendData
    newsArticles tweets None store
  = store ++ [Trend.mk (TrendData.name trendData) (TrendData.rank trendData)
                0 "No Data"%string 0 [] tweets newsArticles]
  ∧ ∀ s,
      processTrend getSentimentDescription maxKeywordsPerTrend trendData
        newsArticles tweets (Some s) store
      = store ++ [Trend.mk (TrendData.name trendData)
                    (TrendData.rank trendData)
                    (StreamData.sentiment s)
                    (getSentimentDescription (StreamData.sentiment s))
                    (StreamData.tweets_analyzed s)
                    (StreamData.keywords s) tweets newsArticles].
Proof.
  intros H. unfold processTrend. rewrite H. split; [| intros s]; reflexivity.
Qed.

(** C9. [removeOldTrends] keeps, unchanged and in their order, exactly the
    records whose name is among the current names, and deletes the others. *)
Theorem removeOldTrends_spec (currTrends : list string) (store : list doc) :
  removeOldTrends currTrends store `sublist_of` store
  ∧ ∀ d, d ∈ removeOldTrends currTrends store
         ↔ d ∈ store ∧ Trend.name d ∈ currTrends.
Proof.
  unfold removeOldTrends, Trend.remove. split.
  - induction store as [| d store IH]; cbn [List.filter]; [constructor |].
    destruct (negb _); [now apply sublist_skip | now apply sublist_cons].
  - intros d. rewrite !list_elem_of_In, List.filter_In, <- !list_elem_of_In.
    cbn [Trend.matches]. rewrite negb_true_iff, bool_decide_eq_false.
    split; intros [Hd Hn]; (split; [exact Hd |]).
    + destruct (decide (Trend.name d ∈ currTrends)); tauto.
    + tauto.
Qed.

End ProcessTrend.

(** ** Completion of [update] *)

Section UpdateCompletion.
Context {Tweet Article : Type}.
Variable getSentimentDescription : float → string.
Variable maxKeywordsPerTrend : Z.
Variable streamData : gmap string StreamData.t.
Local Abbreviation step :=
  (Update.step (Tweet := Tweet) (Article := Article)
     getSentimentDescription maxKeywordsPerTrend).

(** With no callback chain registered, the only step left is the pending
    [removeOldTrends]; it settles nothing. *)
Lemma step_no_tasks (trends : list TrendData.t)
    (s s' : Update.State Tweet Article) :
  step trends streamData s s' →
  Update.tasks s = [] →
  Update.tasks s' = [] ∧ Update.outcome s' = Update.outcome s.
Proof.
  intros Hstep Hnil.
  destruct Hstep as [s _ | s i ? ? H | s i ? ? ? H | s i ? ? H | s i ? ? ? H
                    | s i ? ? ? H];
    try (rewrite Hnil in H; discriminate H).
  cbn. split; [exact Hnil | reflexivity].
Qed.

(** C10. Called with an empty [trends] array, [update] reaches no state in
    which its promise is resolved or rejected. *)
Theorem update_empty_never_settles (store0 : list (Trend.t Tweet Article))
    (s : Update.State Tweet Article) :
  Update.reachable getSentimentDescription maxKeywordsPerTrend [] streamData
    store0 s →
  Update.outcome s = Update.Pending.
Proof.
  unfold Update.reachable. revert s.
  enough (Hinv : ∀ s, rtc (step [] streamData) (Update.init [] store0) s →
                      Update.tasks s = [] ∧ Update.outcome s = Update.Pending)
    by (intros s H; apply Hinv, H).
  apply rtc_ind_r.
  - split; reflexivity.
  - intros s1 s2 _ Hstep [Ht Ho].
    destruct (step_no_tasks _ _ _ Hstep Ht) as [Ht' Ho'].
    split; [exact Ht' | congruence].
Qed.

(** The counter does resolve the promise once a trend is there to count. *)
Lemma update_one_trend_resolves (trendData : TrendData.t)
    (newsArticles : list Article) (tweets : list Tweet)
    (store0 : list (Trend.t Tweet Article)) :
  ∃ s, Update.reachable getSentimentDescription maxKeywordsPerTrend
         [trendData] streamData store0 s
       ∧ Update.outcome s = Update.Fulfilled.
Proof.
  eexists. split.
  - unfold Update.reachable, Update.init.
    eapply rtc_l; [apply (Update.step_news _ _ _ _ _ 0 trendData newsArticles);
                   reflexivity |].
    eapply rtc_l; [apply (Update.step_tweets _ _ _ _ _ 0 trendData newsArticles
                            tweets); reflexivity |].
    eapply rtc_l; [apply (Update.step_processed _ _ _ _ _ 0 trendData
                            newsArticles tweets); reflexivity |].
    apply rtc_refl.
  - reflexivity.
Qed.

(** *** When the promise is fulfilled *)

Lemma counted_le (tasks : list (TrendData.t * Update.Phase Tweet Article)) :
  Update.counted tasks ≤ length tasks.
Proof.
  unfold Update.counted. induction tasks as [| t tasks IH]; cbn; [lia |].
  destruct (Update.isCounted t); cbn; lia.
Qed.

Lemma counted_insert (tasks : list (TrendData.t * Update.Phase Tweet Article))
    (i : nat) (old new : TrendData.t * Update.Phase Tweet Article) :
  tasks !! i = Some old → Update.isCounted old = false →
  Update.counted (<[i := new]> tasks)
  = (if Update.isCounted new then 1 else 0) + Update.counted tasks.
Proof.
  unfold Update.counted. revert i.
  induction tasks as [| t tasks IH]; intros [| i] Hi Hold; try discriminate.
  - injection Hi as ->. cbn. rewrite Hold. destruct (Update.isCounted new);
      reflexivity.
  - change (tasks !! i = Some old) in Hi. specialize (IH i Hi Hold).
    change (<[S i := new]> (t :: tasks)) with (t :: <[i := new]> tasks).
    cbn [List.filter]. destruct (Update.isCounted t); cbn [length]; lia.
Qed.

Lemma counted_init (trends : list TrendData.t) :
  Update.counted
    ((λ trendData, (trendData, Update.AwaitNews (Tweet := Tweet)
                                 (Article := Article))) <$> trends) = 0.
Proof. induction trends as [| t trends IH]; [reflexivity | exact IH]. Qed.

Lemma step_invariant (trends : list TrendData.t)
    (s s' : Update.State Tweet Article) :
  step trends streamData s s' →
  Update.completion_invariant trends s →
  Update.completion_invariant trends s'.
Proof.
  unfold Update.completion_invariant.
  intros Hstep (Hlen & Hcount & Hout).
  destruct Hstep as [s _ | s i ? ? H | s i ? ? ? H | s i ? ? H | s i ? ? ? H
                    | s i ? ? ? H]; cbn [Update.tasks Update.trendsProcessed
                                         Update.outcome Update.countTrend fst snd];
    rewrite ?length_insert, ?(counted_insert _ _ _ _ H eq_refl);
    cbn [Update.isCounted snd Nat.add]; try (repeat split; assumption).
  pose proof (counted_insert _ i _ (trendData, Update.Counted) H eq_refl) as Hc.
  pose proof (counted_le (<[i := (trendData, Update.Counted)]> (Update.tasks s)))
    as Hle.
  rewrite length_insert, Hc in Hle. cbn [Update.isCounted snd] in Hle.
  split; [exact Hlen |]. split; [lia |].
  rewrite Hout, (bool_decide_eq_false_2 (_ ∧ Update.trendsProcessed s = _))
    by lia.
  cbn [Update.resolve]. repeat case_bool_decide; try reflexivity; lia.
Qed.

(** The promise of [update] is never rejected, and it is fulfilled exactly
    when [trends] is not empty and every trend has been counted: a chain
    that is dropped leaves it pending for good. *)
Lemma update_fulfilled_iff (trends : list TrendData.t)
    (store0 : list (Trend.t Tweet Article))
    (s : Update.State Tweet Article) :
  Update.reachable getSentimentDescription maxKeywordsPerTrend trends
    streamData store0 s →
  Update.outcome s ≠ Update.Rejected
  ∧ (Update.outcome s = Update.Fulfilled
     ↔ trends ≠ [] ∧ Update.trendsProcessed s = length trends).
Proof.
  unfold Update.reachable. intros H.
  assert (Hinv : Update.completion_invariant trends s).
  { revert s H. apply rtc_ind_r.
    - unfold Update.completion_invariant, Update.init.
      cbn [Update.tasks Update.trendsProcessed Update.outcome].
      rewrite length_fmap, counted_init. repeat split.
      rewrite bool_decide_eq_false_2 by lia. reflexivity.
    - intros s1 s2 _ Hstep Hinv. exact (step_invariant _ _ _ Hstep Hinv). }
  destruct Hinv as (_ & _ & ->). case_bool_decide as Hd.
  - split; [discriminate |]. split; [intros _ | reflexivity].
    split; [| tauto]. intros ->. cbn in Hd. lia.
  - split; [discriminate |]. split; [discriminate |].
    intros [Hne Hall]. destruct Hd. split; [| exact Hall].
    destruct trends; [congruence | cbn; lia].
Qed.

End UpdateCompletion.

(** ** Scenarios *)

Section Scenarios.
Import JsNumber Samples.
Local Open Scope float_scope.

Lemma newSentimentScore_zero_guard_witness :
  (0 <=? 5) = true ∧ (0 <=? 3) = true
  ∧ newSentimentScore (trend "t" 0.5 5 []) (trend "t" 0.25 3 [])
    = (0.25 * 3 + 0.5 * 5) / (5 + 3).
Proof.
  split; [reflexivity | split; [reflexivity |]].
  exact (proj1 (newSentimentScore_zero_guard
                  (trend "t" 0.5 5 []) (trend "t" 0.25 3 [])
                  eq_refl eq_refl)).
Defined.

(** Both weights zero: the score is the literal 0. *)
Example newSentimentScore_no_tweets :
  newSentimentScore (trend "t" 0.5 0 []) (trend "t" 0.25 0 []) = 0
  ∧ sentimentDivisors (trend "t" 0.5 0 []) (trend "t" 0.25 0 []) = [].
Proof. split; reflexivity. Qed.

(** C6, as stated, fails: with weights 0 and 3 and the incoming score 0.1,
    the merged score is [(0.1 * 3) / 3], the double after 0.1. *)
Lemma newSentimentScore_existing_zero_inexact :
  (Trend.tweets_analyzed (trend "t" 0 0 []) =? 0) = true
  ∧ (0 <? Trend.tweets_analyzed (trend "t" tenth 3 [])) = true
  ∧ newSentimentScore (trend "t" 0 0 []) (trend "t" tenth 3 [])
    = 0x1.999999999999bp-4
  ∧ newSentimentScore (trend "t" 0 0 []) (trend "t" tenth 3 [])
    ≠ Trend.sentiment_score (trend "t" tenth 3 []).
Proof.
  split; [reflexivity | split; [reflexivity | split; [reflexivity |]]].
  intros H. apply (f_equal (λ x, x =? tenth)) in H.
  vm_compute in H. discriminate H.
Qed.

Lemma newSentimentScore_existing_zero_weight_witness :
  (Trend.tweets_analyzed (trend "t" 0.5 0 []) =? 0) = true
  ∧ (0 <? Trend.tweets_analyzed (trend "t" tenth 3 [])) = true
  ∧ is_finite (Trend.sentiment_score (trend "t" 0.5 0 [])) = true
  ∧ sameValueZero
      (newSentimentScore (trend "t" 0.5 0 []) (trend "t" tenth 3 []))
      ((tenth * 3) / 3) = true.
Proof.
  split; [reflexivity | split; [reflexivity | split; [reflexivity |]]].
  exact (newSentimentScore_existing_zero_weight
           (trend "t" 0.5 0 []) (trend "t" tenth 3 [])
           eq_refl eq_refl eq_refl).
Defined.

(** The merge scenario of the specification. *)
Example merge_scenario :
  mergeKeywords [mkKeyword "a" 10] [mkKeyword "a" 7; mkKeyword "b" 3] 2
  = [mkKeyword "a" 10; mkKeyword "b" 3]
  ∧ newTweetsAnalyzed (trend "t" 0.5 5 [mkKeyword "a" 10])
      (trend "t" 0.25 3 [mkKeyword "a" 7; mkKeyword "b" 3]) = 8.
Proof. split; vm_compute; reflexivity. Qed.

(** C7, as stated, fails on creation: the keywords of the stream data are
    saved as they are, here two entries for one word with a maximum of 1. *)
Lemma new_trend_keywords_unchecked :
  processTrend describe 1 (TrendData.mk "t" 1) [] []
    (Some (stream 0.5 2 [mkKeyword "a" 1; mkKeyword "a" 2]))
    ([] : list (Trend.t unit unit))
  = [Trend.mk "t" 1%Z 0.5 "Positive"%string 2
       [mkKeyword "a" 1; mkKeyword "a" 2] [] []]
  ∧ Trend.keywords
      (writtenTrend describe 1 (TrendData.mk "t" 1) [] []
         (Some (stream 0.5 2 [mkKeyword "a" 1; mkKeyword "a" 2]))
         ([] : list (Trend.t unit unit)))
    = [mkKeyword "a" 1; mkKeyword "a" 2]
  ∧ ¬ ((Z.of_nat (length (Trend.keywords
                     (writtenTrend describe 1 (TrendData.mk "t" 1) [] []
                        (Some (stream 0.5 2 [mkKeyword "a" 1; mkKeyword "a" 2]))
                        ([] : list (Trend.t unit unit))))) ≤ 1)%Z
       ∧ NoDup (word <$> Trend.keywords
                  (writtenTrend describe 1 (TrendData.mk "t" 1) [] []
                     (Some (stream 0.5 2 [mkKeyword "a" 1; mkKeyword "a" 2]))
                     ([] : list (Trend.t unit unit))))).
Proof.
  split; [reflexivity | split; [reflexivity |]].
  intros [Hlen _]. vm_compute in Hlen. apply Hlen. reflexivity.
Qed.

Lemma writtenTrend_keywords_witness :
  (0 ≤ 2)%Z
  ∧ NoDup (word <$> Trend.keywords
             (writtenTrend describe 2 (TrendData.mk "t" 1) [] []
                (Some (stream 0.25 3 [mkKeyword "a" 7; mkKeyword "b" 3]))
                [trend "t" 0.5 5 [mkKeyword "a" 10]]))
  ∧ (Z.of_nat (length (Trend.keywords
                 (writtenTrend describe 2 (TrendData.mk "t" 1) [] []
                    (Some (stream 0.25 3 [mkKeyword "a" 7; mkKeyword "b" 3]))
                    [trend "t" 0.5 5 [mkKeyword "a" 10]]))) ≤ 2)%Z.
Proof.
  split; [lia |].
  exact (proj2 (writtenTrend_keywords describe 2 (TrendData.mk "t" 1) [] []
                  (Some (stream 0.25 3 [mkKeyword "a" 7; mkKeyword "b" 3]))
                  [trend "t" 0.5 5 [mkKeyword "a" 10]]
                  ltac:(lia))).
Defined.

Lemma processTrend_new_trend_witness :
  Trend.findOne (Trend.NameEq "t") ([] : list (Trend.t unit unit)) = None
  ∧ processTrend describe 2 (TrendData.mk "t" 1) [] [] None
      ([] : list (Trend.t unit unit))
    = [Trend.mk "t" 1%Z 0 "No Data"%string 0 [] [] []].
Proof.
  split; [reflexivity |].
  exact (proj1 (processTrend_new_trend describe 2 (TrendData.mk "t" 1) [] []
                  ([] : list (Trend.t unit unit)) eq_refl)).
Defined.

(** The reconciler scenario of the specification. *)
Example removeOldTrends_scenario :
  removeOldTrends ["a"; "b"]%string
    [trend "a" 0 0 []; trend "b" 0 0 []; trend "c" 0 0 []]
  = [trend "a" 0 0 []; trend "b" 0 0 []].
Proof. vm_compute. reflexivity. Qed.

Lemma update_empty_never_settles_witness :
  Update.reachable describe 2 [] ∅ ([trend "c" 0 0 []])
    (Update.mkState [] false [] 0 Update.Pending)
  ∧ Update.outcome
      (Update.mkState ([] : list (Trend.t unit unit)) false [] 0
         Update.Pending)
    = Update.Pending.
Proof.
  assert (H : Update.reachable describe 2 [] ∅ ([trend "c" 0 0 []])
                (Update.mkState [] false [] 0 Update.Pending)).
  { eapply rtc_l; [| apply rtc_refl].
    exact (Update.step_remove describe 2 [] ∅
             (Update.init [] [trend "c" 0 0 []]) eq_refl). }
  split; [exact H |].
  exact (update_empty_never_settles describe 2 ∅ _ _ H).
Defined.

End Scenarios.

(** ** The record store under [processTrend] and [removeOldTrends] *)

Section StoreFacts.
Context {Tweet Article : Type}.
Local Abbreviation doc := (Trend.t Tweet Article).

Lemma findOne_Some (n : string) (store : list doc) (d : doc) :
  Trend.findOne (Trend.NameEq n) store = Some d →
  Trend.name d = n ∧ d ∈ store.
Proof.
  intros H. apply List.find_some in H as [Hin Hm].
  cbn in Hm. apply bool_decide_eq_true in Hm.
  split; [exact Hm | now apply list_elem_of_In].
Qed.

Lemma findOne_None (n : string) (store : list doc) :
  Trend.findOne (Trend.NameEq n) store = None ↔ n ∉ (Trend.name <$> store).
Proof.
  unfold Trend.findOne. induction store as [| d store IH]; cbn [List.find].
  - split; [intros _; inversion 1 | reflexivity].
  - cbn [Trend.matches]. rewrite fmap_cons, not_elem_of_cons.
    case_bool_decide as Hd; [| rewrite IH; intuition congruence].
    split; [discriminate | intros [Hne _]; congruence].
Qed.

Lemma findOne_snoc (q : Trend.Query) (store : list doc) (d : doc) :
  Trend.findOne q store = None → Trend.matches q d = true →
  Trend.findOne q (Trend.save d store) = Some d.
Proof.
  unfold Trend.findOne, Trend.save. intros Hnone Hd.
  induction store as [| d' store IH]; cbn [List.find app] in *.
  - rewrite Hd. reflexivity.
  - destruct (Trend.matches q d'); [discriminate | exact (IH Hnone)].
Qed.

Lemma findOne_findOneAndUpdate (q : Trend.Query) (set : doc → doc)
    (store : list doc) (d : doc) :
  Trend.findOne q store = Some d → Trend.matches q (set d) = true →
  Trend.findOne q (Trend.findOneAndUpdate q set store) = Some (set d).
Proof.
  unfold Trend.findOne. intros H Hset.
  induction store as [| d' store IH]; [discriminate |].
  cbn [List.find Trend.findOneAndUpdate] in *.
  destruct (Trend.matches q d') eqn:E; cbn [List.find].
  - injection H as ->. rewrite Hset. reflexivity.
  - rewrite E. exact (IH H).
Qed.

Lemma findOneAndUpdate_names (q : Trend.Query) (set : doc → doc)
    (store : list doc) :
  (∀ d, Trend.name (set d) = Trend.name d) →
  Trend.name <$> Trend.findOneAndUpdate q set store = Trend.name <$> store.
Proof.
  intros Hset. induction store as [| d store IH]; [reflexivity |].
  cbn [Trend.findOneAndUpdate]. destruct (Trend.matches q d).
  - rewrite !fmap_cons, Hset. reflexivity.
  - rewrite !fmap_cons, IH. reflexivity.
Qed.

(** No document matches: nothing is written (the call has no [upsert]). *)
Lemma findOneAndUpdate_no_match (q : Trend.Query) (set : doc → doc)
    (store : list doc) :
  Trend.findOne q store = None → Trend.findOneAndUpdate q set store = store.
Proof.
  unfold Trend.findOne. induction store as [| d store IH]; [reflexivity |].
  cbn [List.find Trend.findOneAndUpdate].
  destruct (Trend.matches q d); [discriminate |].
  intros H. rewrite (IH H). reflexivity.
Qed.

Lemma findOneAndUpdate_filter (q : Trend.Query) (set : doc → doc)
    (keep : doc → bool) (store : list doc) :
  (∀ d, Trend.matches q d = true → keep d = true ∧ keep (set d) = true) →
  List.filter keep (Trend.findOneAndUpdate q set store)
  = Trend.findOneAndUpdate q set (List.filter keep store).
Proof.
  intros Hkeep. induction store as [| d store IH]; [reflexivity |].
  cbn [Trend.findOneAndUpdate List.filter].
  destruct (Trend.matches q d) eqn:E.
  - destruct (Hkeep d E) as [-> Hs]. cbn [List.filter Trend.findOneAndUpdate].
    rewrite Hs, E. reflexivity.
  - cbn [List.filter]. destruct (keep d); cbn [Trend.findOneAndUpdate].
    + rewrite E, IH. reflexivity.
    + exact IH.
Qed.

Lemma findOneAndUpdate_filter_out (q : Trend.Query) (set : doc → doc)
    (keep : doc → bool) (store : list doc) :
  (∀ d, Trend.matches q d = true → keep d = false ∧ keep (set d) = false) →
  List.filter keep (Trend.findOneAndUpdate q set store)
  = List.filter keep store.
Proof.
  intros Hkeep. induction store as [| d store IH]; [reflexivity |].
  cbn [Trend.findOneAndUpdate]. destruct (Trend.matches q d) eqn:E.
  - destruct (Hkeep d E) as [Hd Hs]. cbn [List.filter]. rewrite Hd, Hs.
    reflexivity.
  - cbn [List.filter]. rewrite IH. reflexivity.
Qed.

Lemma findOne_filter (n : string) (keep : doc → bool) (store : list doc) :
  (∀ d, Trend.name d = n → keep d = true) →
  Trend.findOne (Trend.NameEq n) (List.filter keep store)
  = Trend.findOne (Trend.NameEq n) store.
Proof.
  intros Hkeep. unfold Trend.findOne.
  induction store as [| d store IH]; [reflexivity |].
  cbn [List.filter List.find Trend.matches].
  case_bool_decide as Hd.
  - rewrite (Hkeep d Hd). cbn [List.find Trend.matches].
    rewrite bool_decide_eq_true_2 by exact Hd. reflexivity.
  - destruct (keep d); [| exact IH]. cbn [List.find Trend.matches].
    rewrite bool_decide_eq_false_2 by exact Hd. exact IH.
Qed.

End StoreFacts.

(** ** What [processTrend] does to the store *)

(** The documents of the store that belong to other trends than [n]. *)
Definition otherTrends {Tweet Article : Type} (n : string)
    (store : list (Trend.t Tweet Article)) : list (Trend.t Tweet Article) :=
  List.filter (λ d, negb (bool_decide (Trend.name d = n))) store.

Section ProcessTrendStore.
Context {Tweet Article : Type}.
Variable getSentimentDescription : float → string.
Variable maxKeywordsPerTrend : Z.
Import Samples.
Local Open Scope float_scope.
Local Abbreviation doc := (Trend.t Tweet Article).
Local Abbreviation processTrend' :=
  (processTrend (Tweet := Tweet) (Article := Article)
     getSentimentDescription maxKeywordsPerTrend).
Local Abbreviation writtenTrend' :=
  (writtenTrend (Tweet := Tweet) (Article := Article)
     getSentimentDescription maxKeywordsPerTrend).

Lemma processTrend_fmap_name (trendData : TrendData.t)
    (newsArticles : list Article) (tweets : list Tweet)
    (streamData : option StreamData.t) (store : list doc) :
  Trend.name <$> processTrend' trendData newsArticles tweets streamData store
  = (Trend.name <$> store)
    ++ match Trend.findOne (Trend.NameEq (TrendData.name trendData)) store with
       | Some _ => []
       | None => [TrendData.name trendData]
       end.
Proof.
  unfold processTrend.
  destruct (Trend.findOne _ store) as [d |].
  - unfold updateExistingTrend. rewrite findOneAndUpdate_names, app_nil_r;
      reflexivity.
  - unfold createNewTrend, Trend.save. rewrite fmap_app. reflexivity.
Qed.

(** X1. Looking a trend up by name after [processTrend] returns the record
    [processTrend] wrote for it, whether it was merged or created. *)
Theorem processTrend_findOne (trendData : TrendData.t)
    (newsArticles : list Article) (tweets : list Tweet)
    (streamData : option StreamData.t) (store : list doc) :
  Trend.findOne (Trend.NameEq (TrendData.name trendData))
    (processTrend' trendData newsArticles tweets streamData store)
  = Some (writtenTrend' trendData newsArticles tweets streamData store).
Proof.
  unfold processTrend, writtenTrend.
  destruct (Trend.findOne _ store) as [d |] eqn:E.
  - destruct (findOne_Some _ _ _ E) as [Hn _].
    unfold updateExistingTrend. rewrite Hn.
    apply findOne_findOneAndUpdate; [exact E |].
    cbn. apply bool_decide_eq_true. exact Hn.
  - apply findOne_snoc; [exact E |].
    cbn. apply bool_decide_eq_true. reflexivity.
Qed.


(** X3. [processTrend] does not touch the records of other trends: they
    stay the same documents, in the same order. *)
Theorem processTrend_otherTrends (trendData : TrendData.t)
    (newsArticles : list Article) (tweets : list Tweet)
    (streamData : option StreamData.t) (store : list doc) :
  otherTrends (TrendData.name trendData)
    (processTrend' trendData newsArticles tweets streamData store)
  = otherTrends (TrendData.name trendData) store.
Proof.
  unfold otherTrends, processTrend.
  destruct (Trend.findOne _ store) as [d |] eqn:E.
  - destruct (findOne_Some _ _ _ E) as [Hn _].
    unfold updateExistingTrend. rewrite Hn.
    apply findOneAndUpdate_filter_out. intros d' Hd'.
    cbn in Hd'. apply bool_decide_eq_true in Hd'.
    cbn [updatedTrend Trend.name].
    rewrite !bool_decide_eq_true_2 by exact Hd'. split; reflexivity.
  - unfold createNewTrend, Trend.save. rewrite List.filter_app.
    cbn [List.filter fullTrendData Trend.name].
    rewrite bool_decide_eq_true_2 by reflexivity. apply app_nil_r.
Qed.

(** X4. Reconciling and processing a trend that is still trending can run
    in either order: the resulting store is the same. *)
Theorem processTrend_removeOldTrends (currTrends : list string)
    (trendData : TrendData.t) (newsArticles : list Article)
    (tweets : list Tweet) (streamData : option StreamData.t)
    (store : list doc) :
  TrendData.name trendData ∈ currTrends →
  removeOldTrends currTrends
    (processTrend' trendData newsArticles tweets streamData store)
  = processTrend' trendData newsArticles tweets streamData
      (removeOldTrends currTrends store).
Proof.
  intros Hin. unfold removeOldTrends, Trend.remove, processTrend.
  assert (Hkeep : ∀ d : doc,
             Trend.name d = TrendData.name trendData →
             negb (Trend.matches (Trend.NameNin currTrends) d) = true).
  { intros d Hd. cbn. rewrite Hd, bool_decide_eq_false_2; [reflexivity |].
    intros Hn. exact (Hn Hin). }
  rewrite (findOne_filter _ _ _ Hkeep).
  destruct (Trend.findOne _ store) as [d |] eqn:E.
  - unfold updateExistingTrend. apply findOneAndUpdate_filter.
    intros d' Hd'. cbn in Hd'. apply bool_decide_eq_true in Hd'.
    destruct (findOne_Some _ _ _ E) as [Hn _].
    split; apply Hkeep; cbn [updatedTrend Trend.name]; congruence.
  - unfold createNewTrend, Trend.save. rewrite List.filter_app.
    cbn [List.filter]. rewrite Hkeep by reflexivity. reflexivity.
Qed.

(** X5. Whichever path is taken, the record [processTrend] writes carries
    the name and rank of the trend and the tweets and articles of the
    observation: these fields are replaced, never merged. *)
Theorem writtenTrend_observation (trendData : TrendData.t)
    (newsArticles : list Article) (tweets : list Tweet)
    (streamData : option StreamData.t) (store : list doc) :
  Trend.name (writtenTrend' trendData newsArticles tweets streamData store)
  = TrendData.name trendData
  ∧ Trend.rank (writtenTrend' trendData newsArticles tweets streamData store)
    = TrendData.rank trendData
  ∧ Trend.tweets (writtenTrend' trendData newsArticles tweets streamData store)
    = tweets
  ∧ Trend.articles
      (writtenTrend' trendData newsArticles tweets streamData store)
    = newsArticles.
Proof.
  unfold writtenTrend.
  destruct (Trend.findOne _ store) as [d |] eqn:E.
  - destruct (findOne_Some _ _ _ E) as [Hn _]. repeat split. exact Hn.
  - repeat split.
Qed.

(** X6. [updateExistingTrend] only updates: when the store holds no record
    with the name of [existingTrendData], it changes nothing. *)
Theorem updateExistingTrend_no_record (existingTrendData currentTrendData : doc)
    (store : list doc) :
  Trend.name existingTrendData ∉ (Trend.name <$> store) →
  updateExistingTrend getSentimentDescription maxKeywordsPerTrend
    existingTrendData currentTrendData store = store.
Proof.
  intros H. apply findOneAndUpdate_no_match, findOne_None, H.
Qed.

End ProcessTrendStore.

(** ** Composing reconciliations *)

Section Reconcile.
Context {Tweet Article : Type}.
Local Abbreviation doc := (Trend.t Tweet Article).

Lemma removeOldTrends_filter (currTrends : list string) (store : list doc) :
  removeOldTrends currTrends store
  = List.filter (λ d, bool_decide (Trend.name d ∈ currTrends)) store.
Proof.
  unfold removeOldTrends, Trend.remove. apply List.filter_ext. intros d.
  cbn [Trend.matches].
  destruct (decide (Trend.name d ∈ currTrends)) as [Hd | Hd].
  - rewrite bool_decide_eq_false_2 by tauto.
    rewrite bool_decide_eq_true_2 by exact Hd. reflexivity.
  - rewrite bool_decide_eq_true_2 by exact Hd.
    rewrite bool_decide_eq_false_2 by exact Hd. reflexivity.
Qed.

Lemma filter_filter_comm {A} (f g : A → bool) (l : list A) :
  List.filter f (List.filter g l) = List.filter g (List.filter f l).
Proof.
  induction l as [| x l IH]; [reflexivity |]. cbn [List.filter].
  destruct (f x) eqn:Ef, (g x) eqn:Eg; cbn [List.filter];
    rewrite ?Ef, ?Eg, IH; reflexivity.
Qed.

Lemma filter_filter_idem {A} (f : A → bool) (l : list A) :
  List.filter f (List.filter f l) = List.filter f l.
Proof.
  induction l as [| x l IH]; [reflexivity |]. cbn [List.filter].
  destruct (f x) eqn:Ef; cbn [List.filter]; rewrite ?Ef, IH; reflexivity.
Qed.

(** X7. Two reconciliations can run in either order, and running the same
    one again removes nothing more. *)
Theorem removeOldTrends_compose (currTrends1 currTrends2 : list string)
    (store : list doc) :
  removeOldTrends currTrends1 (removeOldTrends currTrends2 store)
  = removeOldTrends currTrends2 (removeOldTrends currTrends1 store)
  ∧ removeOldTrends currTrends1 (removeOldTrends currTrends1 store)
    = removeOldTrends currTrends1 store.
Proof.
  rewrite !removeOldTrends_filter. split.
  - apply filter_filter_comm.
  - apply filter_filter_idem.
Qed.

(** X8. Reconciling against an empty list of current trends deletes every
    record, and reconciling a store whose records are all still trending
    deletes none. *)
Theorem removeOldTrends_edges (currTrends : list string) (store : list doc) :
  removeOldTrends [] store = []
  ∧ ((∀ d, d ∈ store → Trend.name d ∈ currTrends) →
     removeOldTrends currTrends store = store).
Proof.
  rewrite !removeOldTrends_filter. split.
  - induction store as [| d store IH]; [reflexivity |]. cbn [List.filter].
    rewrite bool_decide_eq_false_2 by inversion 1. exact IH.
  - induction store as [| d store IH]; [reflexivity |]. intros H.
    cbn [List.filter]. rewrite bool_decide_eq_true_2 by (apply H; now left).
    rewrite IH; [reflexivity |]. intros d' Hd'. apply H. now right.
Qed.

End Reconcile.

(** ** More on the keyword merge *)

Section KeywordMergeMore.

Lemma mergeKeywords_elem (existing incoming : list Keyword) (maxCount : Z)
    (k : Keyword) :
  k ∈ mergeKeywords existing incoming maxCount →
  k ∈ firstOccurrencesFrom Js.Object_prototype (existing ++ incoming).
Proof.
  destruct (mergeKeywords_take existing incoming maxCount) as [n ->].
  intros Hk. apply elem_of_take in Hk as (i & Hk & _).
  apply list_elem_of_lookup_2 in Hk.
  rewrite sort_Permutation, dedupKeywords_spec in Hk. exact Hk.
Qed.

Lemma firstOccurrencesFrom_keeps (seen : list string) (l1 l2 : list Keyword)
    (k : Keyword) :
  word k ∉ seen → word k ∉ (word <$> l1) →
  k ∈ firstOccurrencesFrom seen (l1 ++ k :: l2).
Proof.
  revert seen. induction l1 as [| k' l1 IH]; intros seen Hs Hl1;
    cbn [app firstOccurrencesFrom].
  - rewrite bool_decide_eq_false_2 by exact Hs. now left.
  - rewrite fmap_cons, not_elem_of_cons in Hl1. destruct Hl1 as [Hne Hl1].
    destruct (bool_decide (word k' ∈ seen)); [now apply IH |].
    right. apply IH; [| exact Hl1]. rewrite not_elem_of_cons. tauto.
Qed.

Lemma NoDup_fmap_eq {A B} (f : A → B) (l : list A) (x y : A) :
  NoDup (f <$> l) → x ∈ l → y ∈ l → f x = f y → x = y.
Proof.
  induction l as [| z l IH]; [inversion 2 |].
  rewrite fmap_cons, NoDup_cons, !elem_of_cons.
  intros [Hz Hnd] [-> | Hx] [-> | Hy] Hf; auto.
  - destruct Hz. rewrite Hf. now apply list_elem_of_fmap_2.
  - destruct Hz. rewrite <- Hf. now apply list_elem_of_fmap_2.
Qed.

Lemma firstOccurrencesFrom_id (seen : list string) (l : list Keyword) :
  NoDup (word <$> l) → (∀ k, k ∈ l → word k ∉ seen) →
  firstOccurrencesFrom seen l = l.
Proof.
  revert seen. induction l as [| k l IH]; intros seen Hnd Hs; [reflexivity |].
  rewrite fmap_cons, NoDup_cons in Hnd. destruct Hnd as [Hk Hnd].
  cbn [firstOccurrencesFrom].
  rewrite bool_decide_eq_false_2 by (apply Hs; now left).
  f_equal. apply IH; [exact Hnd |]. intros k' Hk'.
  rewrite not_elem_of_cons. split; [| apply Hs; now right].
  intros Heq. apply Hk. rewrite <- Heq. now apply list_elem_of_fmap_2.
Qed.

Lemma sort_sorted_id (l : list Keyword) :
  StronglySorted occurences_ge l → Js.sort byOccurences l = l.
Proof.
  induction 1 as [| x l Hl IH Hx]; [reflexivity |].
  cbn [Js.sort foldr]. fold (Js.sort byOccurences l). rewrite IH.
  destruct l as [| y l]; [reflexivity |]. cbn [Js.sort_insert].
  apply Forall_cons in Hx as [Hy _]. unfold occurences_ge in Hy.
  unfold byOccurences. destruct (Z.ltb_spec 0 (occurences y - occurences x));
    [lia | reflexivity].
Qed.

(** X9. Every entry of the merged list is the first entry of
    [existing ++ incoming] that carries its word, and no entry's word is a
    property name of [Object.prototype]: the merge never invents or alters a
    keyword. *)
Theorem mergeKeywords_entries (existing incoming : list Keyword)
    (maxCount : Z) (k : Keyword) :
  k ∈ mergeKeywords existing incoming maxCount →
  (word k ∉ Js.Object_prototype)
  ∧ ∃ l1 l2, existing ++ incoming = l1 ++ k :: l2 ∧ (word k ∉ (word <$> l1)).
Proof.
  intros Hk. apply mergeKeywords_elem in Hk.
  exact (firstOccurrencesFrom_elem _ _ _ Hk).
Qed.

(** X10. The merge keeps the most frequent keywords: a deduplicated keyword
    that is cut has at most the [occurences] of every keyword that is kept. *)
Theorem mergeKeywords_top (existing incoming : list Keyword) (maxCount : Z)
    (kept cut : Keyword) :
  kept ∈ mergeKeywords existing incoming maxCount →
  cut ∈ dedupKeywords existing incoming →
  cut ∉ mergeKeywords existing incoming maxCount →
  (occurences cut ≤ occurences kept)%Z.
Proof.
  destruct (mergeKeywords_take existing incoming maxCount) as [n ->].
  set (sorted := Js.sort byOccurences (dedupKeywords existing incoming)).
  intros Hkept Hcut Hnot.
  pose proof (sort_sorted (dedupKeywords existing incoming)) as Hs.
  fold sorted in Hs. rewrite <- (take_drop n sorted) in Hs.
  apply StronglySorted_app in Hs as (Hs & _ & _).
  apply (Hs kept cut Hkept).
  rewrite <- (sort_Permutation byOccurences) in Hcut. fold sorted in Hcut.
  rewrite <- (take_drop n sorted), elem_of_app in Hcut. tauto.
Qed.

(** X11. For [maxCount >= 0] the merged list has exactly the smaller of
    [maxCount] and the number of deduplicated keywords as its length. *)
Theorem mergeKeywords_length_exact (existing incoming : list Keyword)
    (maxCount : Z) :
  (0 ≤ maxCount)%Z →
  length (mergeKeywords existing incoming maxCount)
  = Nat.min (Z.to_nat maxCount) (length (dedupKeywords existing incoming)).
Proof.
  intros H. unfold mergeKeywords. rewrite slice_0, length_take.
  unfold sliceLength. rewrite (Permutation_length (sort_Permutation _ _)).
  destruct (Z.ltb_spec maxCount 0); lia.
Qed.

(** X12. When the deduplicated keywords fit within [maxCount], the merge
    drops none of them: its result is their sorted rearrangement. *)
Theorem mergeKeywords_fits (existing incoming : list Keyword) (maxCount : Z) :
  (Z.of_nat (length (dedupKeywords existing incoming)) ≤ maxCount)%Z →
  mergeKeywords existing incoming maxCount
  ≡ₚ dedupKeywords existing incoming.
Proof.
  intros H. unfold mergeKeywords. rewrite slice_0, take_ge.
  - apply sort_Permutation.
  - unfold sliceLength. rewrite (Permutation_length (sort_Permutation _ _)).
    destruct (Z.ltb_spec maxCount 0); lia.
Qed.

(** X13. Merging a merged list again with no incoming keywords changes
    nothing, for [maxCount >= 0]. *)
Theorem mergeKeywords_again (existing incoming : list Keyword) (maxCount : Z) :
  (0 ≤ maxCount)%Z →
  mergeKeywords (mergeKeywords existing incoming maxCount) [] maxCount
  = mergeKeywords existing incoming maxCount.
Proof.
  intros H. set (r := mergeKeywords existing incoming maxCount).
  assert (Hd : dedupKeywords r [] = r).
  { rewrite dedupKeywords_spec, app_nil_r. apply firstOccurrencesFrom_id.
    - apply mergeKeywords_NoDup.
    - intros k Hk. apply mergeKeywords_elem in Hk.
      apply (firstOccurrencesFrom_elem _ _ _ Hk). }
  assert (Hs : Js.sort byOccurences r = r).
  { apply sort_sorted_id.
    destruct (mergeKeywords_take existing incoming maxCount) as [n Hn].
    unfold r. rewrite Hn.
    pose proof (sort_sorted (dedupKeywords existing incoming)) as Hsorted.
    rewrite <- (take_drop n (Js.sort _ _)) in Hsorted.
    apply StronglySorted_app in Hsorted. tauto. }
  unfold mergeKeywords at 1. fold r. rewrite Hd, Hs, slice_0.
  apply take_ge. unfold sliceLength.
  pose proof (slice_0_length
                (Js.sort byOccurences (dedupKeywords existing incoming))
                maxCount H) as Hlen.
  fold (mergeKeywords existing incoming maxCount) in Hlen. fold r in Hlen.
  destruct (Z.ltb_spec maxCount 0); lia.
Qed.

(** X14. The existing record wins: a keyword of [existing] that is the
    first one there with its word (not a property name of
    [Object.prototype]) survives deduplication, and it is the only
    surviving entry with that word, whatever [incoming] says about it. *)
Theorem dedupKeywords_existing_wins (l1 l2 incoming : list Keyword)
    (k : Keyword) :
  word k ∉ Js.Object_prototype → word k ∉ (word <$> l1) →
  k ∈ dedupKeywords (l1 ++ k :: l2) incoming
  ∧ ∀ k', k' ∈ dedupKeywords (l1 ++ k :: l2) incoming →
          word k' = word k → k' = k.
Proof.
  intros Hp Hl1. rewrite dedupKeywords_spec, <- app_assoc, <- app_comm_cons.
  assert (Hk : k ∈ firstOccurrencesFrom Js.Object_prototype
                     (l1 ++ k :: l2 ++ incoming))
    by (apply firstOccurrencesFrom_keeps; assumption).
  split; [exact Hk |]. intros k' Hk' Hw.
  exact (NoDup_fmap_eq word _ _ _ (firstOccurrencesFrom_NoDup _ _) Hk' Hk Hw).
Qed.

End KeywordMergeMore.

(** ** What a run of [update] guarantees *)

Section UpdateRuns.
Context {Tweet Article : Type}.
Variable getSentimentDescription : float → string.
Variable maxKeywordsPerTrend : Z.
Variable trends : list TrendData.t.
Variable streamData : gmap string StreamData.t.
Local Abbreviation state := (Update.State Tweet Article).
Local Abbreviation step :=
  (Update.step (Tweet := Tweet) (Article := Article)
     getSentimentDescription maxKeywordsPerTrend trends streamData).
Local Abbreviation reachable :=
  (Update.reachable (Tweet := Tweet) (Article := Article)
     getSentimentDescription maxKeywordsPerTrend trends streamData).
Local Abbreviation currTrends := (TrendData.name <$> trends).

Lemma reachable_completion_invariant (store0 : list (Trend.t Tweet Article))
    (s : state) :
  reachable store0 s → Update.completion_invariant trends s.
Proof.
  unfold Update.reachable. revert s. apply rtc_ind_r.
  - unfold Update.completion_invariant, Update.init.
    cbn [Update.tasks Update.trendsProcessed Update.outcome].
    rewrite length_fmap, counted_init. repeat split.
    rewrite bool_decide_eq_false_2 by lia. reflexivity.
  - intros s1 s2 _ Hstep Hinv.
    exact (step_invariant _ _ _ _ _ _ Hstep Hinv).
Qed.

Lemma counted_lt (tasks : list (TrendData.t * Update.Phase Tweet Article))
    (t : TrendData.t * Update.Phase Tweet Article) :
  t ∈ tasks → Update.isCounted t = false →
  Update.counted tasks < length tasks.
Proof.
  unfold Update.counted. induction tasks as [| t' tasks IH]; [inversion 1 |].
  rewrite elem_of_cons. intros [<- | Ht] Hc; cbn [List.filter length].
  - rewrite Hc. pose proof (counted_le tasks) as Hle.
    unfold Update.counted in Hle. lia.
  - specialize (IH Ht Hc). destruct (Update.isCounted t'); cbn [length]; lia.
Qed.

(** A callback chain that was dropped stays dropped. *)
Lemma step_dropped (s s' : state) (i : nat) (trendData : TrendData.t) :
  step s s' →
  Update.tasks s !! i = Some (trendData, Update.Dropped) →
  Update.tasks s' !! i = Some (trendData, Update.Dropped).
Proof.
  intros Hstep Hd.
  destruct Hstep as [s _ | s j ? ? H | s j ? ? ? H | s j ? ? H | s j ? ? ? H
                    | s j ? ? ? H]; cbn [Update.tasks]; try exact Hd;
    (destruct (decide (j = i)) as [-> | Hne];
     [rewrite Hd in H; discriminate H
     | rewrite list_lookup_insert_ne by exact Hne; exact Hd]).
Qed.

(** X16. Once the tweet fetch or [processTrend] of one trend is rejected,
    the promise of [update] stays pending in every later state: no handler
    counts the trend, so the counter never reaches [trends.length]. *)
Theorem update_dropped_never_settles (store0 : list (Trend.t Tweet Article))
    (s s' : state) (i : nat) (trendData : TrendData.t) :
  reachable store0 s →
  Update.tasks s !! i = Some (trendData, Update.Dropped) →
  rtc step s s' →
  Update.outcome s' = Update.Pending.
Proof.
  intros Hs Hd Hss'.
  assert (Hd' : Update.tasks s' !! i = Some (trendData, Update.Dropped)).
  { induction Hss' as [| s1 s2 s3 H12 _ IH]; [exact Hd |].
    apply IH.
    - unfold Update.reachable in *. eapply rtc_r; eassumption.
    - exact (step_dropped _ _ _ _ H12 Hd). }
  assert (Hs' : reachable store0 s')
    by (unfold Update.reachable in *; etransitivity; eassumption).
  destruct (reachable_completion_invariant _ _ Hs') as (Hlen & Hcount & ->).
  apply list_elem_of_lookup_2 in Hd'.
  pose proof (counted_lt _ _ Hd' eq_refl) as Hlt.
  rewrite bool_decide_eq_false_2 by lia. reflexivity.
Qed.

(** The second invariant of a run: the chains keep their trend, a counted
    trend has a record, and after the reconciliation every record belongs
    to a current trend. *)
Definition store_invariant (s : state) : Prop :=
  (Update.tasks s).*1 = trends
  ∧ (∀ i trendData,
       Update.tasks s !! i = Some (trendData, Update.Counted) →
       TrendData.name trendData ∈ (Trend.name <$> Update.store s))
  ∧ (Update.removePending s = false →
     ∀ d, d ∈ Update.store s → Trend.name d ∈ currTrends).

Lemma tasks_insert_fst (tasks : list (TrendData.t * Update.Phase Tweet Article))
    (i : nat) (trendData : TrendData.t) (old new : Update.Phase Tweet Article) :
  tasks !! i = Some (trendData, old) →
  (<[i := (trendData, new)]> tasks).*1 = tasks.*1.
Proof.
  intros H. rewrite list_fmap_insert. apply list_insert_id.
  rewrite list_lookup_fmap, H. reflexivity.
Qed.

Lemma task_trend (s : state) (i : nat) (trendData : TrendData.t)
    (ph : Update.Phase Tweet Article) :
  (Update.tasks s).*1 = trends →
  Update.tasks s !! i = Some (trendData, ph) →
  TrendData.name trendData ∈ currTrends.
Proof.
  intros <- H. apply list_elem_of_fmap_2.
  apply list_elem_of_fmap. exists (trendData, ph). split; [reflexivity |].
  exact (list_elem_of_lookup_2 _ _ _ H).
Qed.

Lemma removeOldTrends_names (curr : list string)
    (store : list (Trend.t Tweet Article)) (n : string) :
  n ∈ (Trend.name <$> removeOldTrends curr store)
  ↔ n ∈ (Trend.name <$> store) ∧ n ∈ curr.
Proof.
  rewrite removeOldTrends_filter, !list_elem_of_fmap. split.
  - intros (d & -> & Hd). apply list_elem_of_In, List.filter_In in Hd.
    destruct Hd as [Hd Hn]. apply bool_decide_eq_true in Hn.
    split; [| exact Hn]. exists d. split; [reflexivity |].
    now apply list_elem_of_In.
  - intros [(d & -> & Hd) Hn]. exists d. split; [reflexivity |].
    apply list_elem_of_In, List.filter_In. split.
    + now apply list_elem_of_In.
    + now apply bool_decide_eq_true.
Qed.

Lemma step_store_invariant (s s' : state) :
  step s s' → store_invariant s → store_invariant s'.
Proof.
  unfold store_invariant. intros Hstep (Hfst & Hrec & Hcur).
  destruct Hstep as [s _ | s j td ? H | s j td ? ? H | s j td ? H
                    | s j td ? ? H | s j td ? ? H];
    cbn [Update.tasks Update.store Update.removePending];
    rewrite ?(tasks_insert_fst _ _ _ _ _ H).
  - split; [exact Hfst |]. split.
    + intros i trendData Hi. apply removeOldTrends_names.
      split; [exact (Hrec _ _ Hi) | exact (task_trend _ _ _ _ Hfst Hi)].
    + intros _ d Hd. apply (list_elem_of_fmap_2 Trend.name) in Hd.
      apply removeOldTrends_names in Hd. tauto.
  - split; [exact Hfst |]. split; [| exact Hcur].
    intros i trendData Hi. destruct (decide (j = i)) as [-> | Hne].
    + rewrite list_lookup_insert_eq in Hi
        by (eapply lookup_lt_Some; exact H). discriminate Hi.
    + rewrite list_lookup_insert_ne in Hi by exact Hne. exact (Hrec _ _ Hi).
  - split; [exact Hfst |]. split; [| exact Hcur].
    intros i trendData Hi. destruct (decide (j = i)) as [-> | Hne].
    + rewrite list_lookup_insert_eq in Hi
        by (eapply lookup_lt_Some; exact H). discriminate Hi.
    + rewrite list_lookup_insert_ne in Hi by exact Hne. exact (Hrec _ _ Hi).
  - split; [exact Hfst |]. split; [| exact Hcur].
    intros i trendData Hi. destruct (decide (j = i)) as [-> | Hne].
    + rewrite list_lookup_insert_eq in Hi
        by (eapply lookup_lt_Some; exact H). discriminate Hi.
    + rewrite list_lookup_insert_ne in Hi by exact Hne. exact (Hrec _ _ Hi).
  - split; [exact Hfst |]. split.
    + intros i trendData Hi. rewrite processTrend_fmap_name, elem_of_app.
      destruct (decide (j = i)) as [-> | Hne].
      * rewrite list_lookup_insert_eq in Hi
          by (eapply lookup_lt_Some; exact H).
        injection Hi as <-.
        destruct (Trend.findOne _ (Update.store s)) as [d |] eqn:E.
        -- left. destruct (findOne_Some _ _ _ E) as [<- Hd].
           now apply list_elem_of_fmap_2.
        -- right. now left.
      * rewrite list_lookup_insert_ne in Hi by exact Hne.
        left. exact (Hrec _ _ Hi).
    + intros Hp d Hd. apply (list_elem_of_fmap_2 Trend.name) in Hd.
      rewrite processTrend_fmap_name, elem_of_app in Hd.
      destruct Hd as [Hd | Hd].
      * apply list_elem_of_fmap in Hd as (d' & -> & Hd'). exact (Hcur Hp _ Hd').
      * destruct (Trend.findOne _ (Update.store s)); [inversion Hd |].
        apply list_elem_of_singleton in Hd as ->.
        exact (task_trend _ _ _ _ Hfst H).
  - split; [exact Hfst |]. split; [| exact Hcur].
    intros i trendData Hi. destruct (decide (j = i)) as [-> | Hne].
    + rewrite list_lookup_insert_eq in Hi
        by (eapply lookup_lt_Some; exact H). discriminate Hi.
    + rewrite list_lookup_insert_ne in Hi by exact Hne. exact (Hrec _ _ Hi).
Qed.

Lemma reachable_store_invariant (store0 : list (Trend.t Tweet Article))
    (s : state) :
  reachable store0 s → store_invariant s.
Proof.
  unfold Update.reachable. revert s. apply rtc_ind_r.
  - unfold store_invariant, Update.init.
    cbn [Update.tasks Update.store Update.removePending].
    split; [| split].
    + rewrite <- list_fmap_compose. apply list_fmap_id.
    + intros i trendData Hi. rewrite list_lookup_fmap in Hi.
      destruct (trends !! i); discriminate Hi.
    + discriminate.
  - intros s1 s2 _ Hstep Hinv. exact (step_store_invariant _ _ Hstep Hinv).
Qed.

Lemma counted_all (tasks : list (TrendData.t * Update.Phase Tweet Article))
    (t : TrendData.t * Update.Phase Tweet Article) :
  Update.counted tasks = length tasks → t ∈ tasks →
  Update.isCounted t = true.
Proof.
  intros Hall Ht. destruct (Update.isCounted t) eqn:E; [reflexivity |].
  pose proof (counted_lt _ _ Ht E). lia.
Qed.

(** X17. When the promise of [update] is fulfilled, the store holds a
    record for every trend of the array; and once the reconciliation has
    run, the store holds records of current trends only. *)
Theorem update_store_reconciled (store0 : list (Trend.t Tweet Article))
    (s : state) :
  reachable store0 s →
  (Update.outcome s = Update.Fulfilled →
   ∀ trendData, trendData ∈ trends →
                TrendData.name trendData ∈ (Trend.name <$> Update.store s))
  ∧ (Update.removePending s = false →
     ∀ d, d ∈ Update.store s → Trend.name d ∈ currTrends).
Proof.
  intros Hs.
  destruct (reachable_store_invariant _ _ Hs) as (Hfst & Hrec & Hcur).
  destruct (reachable_completion_invariant _ _ Hs) as (Hlen & Hcount & Hout).
  split; [| exact Hcur].
  intros Hf trendData Htd. rewrite Hout in Hf.
  case_bool_decide as Hd; [| discriminate Hf]. destruct Hd as [_ Hall].
  rewrite <- Hfst in Htd.
  apply list_elem_of_fmap in Htd as ([td ph] & -> & Ht).
  assert (Hc : Update.isCounted (td, ph) = true)
    by (apply (counted_all (Update.tasks s)); [lia | exact Ht]).
  destruct ph; try discriminate Hc.
  apply list_elem_of_lookup_1 in Ht as [i Hi]. exact (Hrec _ _ Hi).
Qed.

End UpdateRuns.

(** ** Updates without stream data, and further characterisations *)

Section MoreProperties.
Context {Tweet Article : Type}.
Variable getSentimentDescription : float → string.
Variable maxKeywordsPerTrend : Z.
Import JsNumber JsNumberFacts JsNumberZero.
Local Open Scope float_scope.
Local Abbreviation doc := (Trend.t Tweet Article).

(** X15. When no keyword's word is a property name of [Object.prototype],
    the filter of [updateExistingTrend] keeps exactly the first occurrence
    of every word of [existing ++ incoming]. *)
Theorem dedupKeywords_keeps_first_occurrences
    (existing incoming : list Keyword) :
  (∀ k, k ∈ existing ++ incoming → word k ∉ Js.Object_prototype) →
  dedupKeywords existing incoming = firstOccurrences (existing ++ incoming).
Proof.
  intros H. rewrite dedupKeywords_spec. apply firstOccurrencesFrom_ext.
  intros k Hk. split; [intros Hp; destruct (H k Hk Hp) | inversion 1].
Qed.

(** X18. In every state a run of [update] can reach, the promise is not
    rejected, and it is fulfilled exactly when [trends] is not empty and
    the counter equals [trends.length]. *)
Theorem update_settles_iff (trends : list TrendData.t)
    (streamData : gmap string StreamData.t) (store0 : list doc)
    (s : Update.State Tweet Article) :
  Update.reachable getSentimentDescription maxKeywordsPerTrend trends
    streamData store0 s →
  Update.outcome s ≠ Update.Rejected
  ∧ (Update.outcome s = Update.Fulfilled
     ↔ trends ≠ [] ∧ Update.trendsProcessed s = length trends).
Proof.
  intros H.
  destruct (reachable_completion_invariant _ _ _ _ _ _ H) as (_ & _ & ->).
  case_bool_decide as Hd.
  - split; [discriminate |]. split; [intros _ | reflexivity].
    split; [| tauto]. intros ->. cbn in Hd. lia.
  - split; [discriminate |]. split; [discriminate |].
    intros [Hne Hall]. destruct Hd. split; [| exact Hall].
    destruct trends; [congruence | cbn; lia].
Qed.

(** X19. Processing an existing trend for which the stream has no data
    (its record has a positive [tweets_analyzed]) leaves [tweets_analyzed]
    as it is, re-merges the existing keywords alone, and recomputes the
    score as [(score * tweets_analyzed) / tweets_analyzed] in binary64
    arithmetic. *)
Theorem processTrend_no_stream_data (trendData : TrendData.t)
    (newsArticles : list Article) (tweets : list Tweet) (store : list doc)
    (d : doc) :
  Trend.findOne (Trend.NameEq (TrendData.name trendData)) store = Some d →
  (0 <? Trend.tweets_analyzed d) = true →
  Trend.tweets_analyzed
    (writtenTrend getSentimentDescription maxKeywordsPerTrend trendData
       newsArticles tweets None store)
  = Trend.tweets_analyzed d
  ∧ Trend.keywords
      (writtenTrend getSentimentDescription maxKeywordsPerTrend trendData
         newsArticles tweets None store)
    = mergeKeywords (Trend.keywords d) [] maxKeywordsPerTrend
  ∧ sameValueZero
      (Trend.sentiment_score
         (writtenTrend getSentimentDescription maxKeywordsPerTrend trendData
            newsArticles tweets None store))
      ((Trend.sentiment_score d * Trend.tweets_analyzed d)
       / Trend.tweets_analyzed d) = true.
Proof.
  intros Hfind Hw. unfold writtenTrend. rewrite Hfind.
  cbn [updatedTrend Trend.tweets_analyzed Trend.keywords Trend.sentiment_score
       fullTrendData].
  assert (Hn : newTweetsAnalyzed d
                 (fullTrendData getSentimentDescription trendData newsArticles
                    tweets None)
               = Trend.tweets_analyzed d).
  { unfold newTweetsAnalyzed. cbn [fullTrendData Trend.tweets_analyzed].
    rewrite add_comm. apply zero_add_pos; [reflexivity | exact Hw]. }
  split; [exact Hn |]. split; [reflexivity |].
  unfold newSentimentScore. rewrite Hn, Hw.
  cbn [fullTrendData Trend.tweets_analyzed Trend.sentiment_score].
  change (0 * 0) with 0. rewrite add_comm.
  destruct (add_zero_r (Trend.sentiment_score d * Trend.tweets_analyzed d) 0
              eq_refl) as [-> | [Hx Hxz]].
  - apply sameValueZero_refl.
  - apply zero_div_pos; assumption.
Qed.

End MoreProperties.

(** ** Scenarios for the further properties *)

#[local] Instance Keyword_eq_dec : EqDecision Keyword.
Proof. solve_decision. Defined.

Section MoreScenarios.
Import JsNumber Samples.
Local Open Scope float_scope.


Lemma processTrend_removeOldTrends_witness :
  "a"%string ∈ ["a"; "c"]%string
  ∧ removeOldTrends ["a"; "c"]%string
      (processTrend describe 2 (TrendData.mk "a" 3) [] [] None
         [trend "a" 0.5 5 []; trend "b" 0 0 []])
    = processTrend describe 2 (TrendData.mk "a" 3) [] [] None
        (removeOldTrends ["a"; "c"]%string
           [trend "a" 0.5 5 []; trend "b" 0 0 []]).
Proof.
  assert (H : "a"%string ∈ ["a"; "c"]%string) by (now left).
  split; [exact H |].
  exact (processTrend_removeOldTrends describe 2 _ (TrendData.mk "a" 3) [] []
           None [trend "a" 0.5 5 []; trend "b" 0 0 []] H).
Defined.

Lemma updateExistingTrend_no_record_witness :
  updateExistingTrend describe 2 (trend "a" 0.5 5 []) (trend "a" 0.25 3 [])
    [trend "b" 0 0 []]
  = [trend "b" 0 0 []].
Proof.
  apply (updateExistingTrend_no_record describe 2).
  apply (bool_decide_unpack _). vm_compute. exact I.
Defined.

Lemma removeOldTrends_edges_witness :
  removeOldTrends ["a"; "b"]%string [trend "a" 0 0 []; trend "b" 0 0 []]
  = [trend "a" 0 0 []; trend "b" 0 0 []].
Proof.
  apply (proj2 (removeOldTrends_edges ["a"; "b"]%string
                  [trend "a" 0 0 []; trend "b" 0 0 []])).
  intros d Hd. apply list_elem_of_fmap_2 with (f := Trend.name) in Hd.
  exact Hd.
Defined.

Lemma mergeKeywords_entries_witness :
  word (mkKeyword "a" 10) ∉ Js.Object_prototype.
Proof.
  apply (mergeKeywords_entries [mkKeyword "a" 10]
           [mkKeyword "a" 7; mkKeyword "b" 3] 2 (mkKeyword "a" 10)).
  now left.
Defined.

Lemma mergeKeywords_top_witness :
  (occurences (mkKeyword "c" 1) ≤ occurences (mkKeyword "b" 3))%Z.
Proof.
  apply (mergeKeywords_top [mkKeyword "a" 10]
           [mkKeyword "c" 1; mkKeyword "b" 3] 2).
  - right. now left.
  - rewrite dedupKeywords_spec. right. now left.
  - apply (bool_decide_unpack _). vm_compute. exact I.
Defined.

Lemma mergeKeywords_length_exact_witness :
  length (mergeKeywords [mkKeyword "a" 10]
            [mkKeyword "c" 1; mkKeyword "b" 3] 2) = 2%nat.
Proof.
  apply (mergeKeywords_length_exact [mkKeyword "a" 10]
           [mkKeyword "c" 1; mkKeyword "b" 3] 2).
  lia.
Defined.

Lemma mergeKeywords_fits_witness :
  mergeKeywords [mkKeyword "a" 10] [mkKeyword "c" 1; mkKeyword "b" 3] 5
  ≡ₚ dedupKeywords [mkKeyword "a" 10] [mkKeyword "c" 1; mkKeyword "b" 3].
Proof.
  apply (mergeKeywords_fits [mkKeyword "a" 10]
           [mkKeyword "c" 1; mkKeyword "b" 3] 5).
  vm_compute. discriminate.
Defined.

Lemma mergeKeywords_again_witness :
  mergeKeywords
    (mergeKeywords [mkKeyword "a" 10] [mkKeyword "c" 1; mkKeyword "b" 3] 2)
    [] 2
  = mergeKeywords [mkKeyword "a" 10] [mkKeyword "c" 1; mkKeyword "b" 3] 2.
Proof.
  apply (mergeKeywords_again [mkKeyword "a" 10]
           [mkKeyword "c" 1; mkKeyword "b" 3] 2).
  lia.
Defined.

Lemma dedupKeywords_existing_wins_witness :
  mkKeyword "a" 10
  ∈ dedupKeywords ([mkKeyword "b" 2] ++ mkKeyword "a" 10 :: [])
      [mkKeyword "a" 7].
Proof.
  apply (dedupKeywords_existing_wins [mkKeyword "b" 2] []
           [mkKeyword "a" 7] (mkKeyword "a" 10)).
  - apply (bool_decide_unpack _). vm_compute. exact I.
  - apply (bool_decide_unpack _). vm_compute. exact I.
Defined.

Lemma dedupKeywords_keeps_first_occurrences_witness :
  dedupKeywords [mkKeyword "a" 10] [mkKeyword "a" 7; mkKeyword "b" 3]
  = firstOccurrences
      ([mkKeyword "a" 10] ++ [mkKeyword "a" 7; mkKeyword "b" 3]).
Proof.
  apply dedupKeywords_keeps_first_occurrences.
  intros k Hk. apply (bool_decide_unpack _).
  cbn [app] in Hk. rewrite !elem_of_cons in Hk.
  destruct Hk as [-> | [-> | [-> | Hk]]]; [| | | inversion Hk];
    vm_compute; exact I.
Defined.

End MoreScenarios.

(** ** Sample runs of [update] on one trend *)

Module RunSamples.
Import Samples.

Definition t1 : TrendData.t := TrendData.mk "t" 1.

(** The tweet fetch of the only trend was rejected. *)
Definition dropped : Update.State unit unit :=
  Update.mkState [] true [(t1, Update.Dropped)] 0 Update.Pending.

(** The only trend was processed and counted. *)
Definition finished : Update.State unit unit :=
  Update.mkState (processTrend describe 2 t1 [] [] None []) true
    [(t1, Update.Counted)] 1 Update.Fulfilled.
End RunSamples.

Section RunScenarios.
Import JsNumber Samples RunSamples.
Local Open Scope float_scope.

Lemma dropped_reachable :
  Update.reachable describe 2 [t1] ∅ [] dropped.
Proof.
  unfold Update.reachable, Update.init.
  eapply rtc_l;
    [apply (Update.step_news _ _ _ _ _ 0%nat t1 []); reflexivity |].
  eapply rtc_l;
    [apply (Update.step_tweets_rejected _ _ _ _ _ 0%nat t1 []); reflexivity |].
  apply rtc_refl.
Defined.

Lemma finished_reachable :
  Update.reachable describe 2 [t1] ∅ [] finished.
Proof.
  unfold Update.reachable, Update.init.
  eapply rtc_l;
    [apply (Update.step_news _ _ _ _ _ 0%nat t1 []); reflexivity |].
  eapply rtc_l;
    [apply (Update.step_tweets _ _ _ _ _ 0%nat t1 [] []); reflexivity |].
  eapply rtc_l;
    [apply (Update.step_processed _ _ _ _ _ 0%nat t1 [] []); reflexivity |].
  apply rtc_refl.
Defined.

Lemma update_dropped_never_settles_witness :
  Update.tasks dropped !! 0%nat = Some (t1, Update.Dropped)
  ∧ Update.outcome
      (Update.mkState
         (removeOldTrends ["t"]%string ([] : list (Trend.t unit unit))) false
         [(t1, Update.Dropped)] 0 Update.Pending)
    = Update.Pending.
Proof.
  split; [reflexivity |].
  apply (update_dropped_never_settles describe 2 [t1] ∅ [] dropped _ 0%nat t1
           dropped_reachable eq_refl).
  eapply rtc_l; [| apply rtc_refl].
  apply (Update.step_remove describe 2 [t1] ∅ dropped). reflexivity.
Defined.

Lemma update_store_reconciled_witness :
  Update.outcome finished = Update.Fulfilled
  ∧ TrendData.name t1 ∈ (Trend.name <$> Update.store finished).
Proof.
  split; [reflexivity |].
  apply (proj1 (update_store_reconciled describe 2 [t1] ∅ [] finished
                  finished_reachable) eq_refl).
  now left.
Defined.

Lemma update_settles_iff_witness :
  Update.outcome finished ≠ Update.Rejected
  ∧ (Update.outcome finished = Update.Fulfilled
     ↔ [t1] ≠ [] ∧ Update.trendsProcessed finished = length [t1]).
Proof.
  exact (update_settles_iff describe 2 [t1] ∅ [] finished finished_reachable).
Defined.

Lemma processTrend_no_stream_data_witness :
  (0 <? 3) = true
  ∧ Trend.tweets_analyzed
      (writtenTrend describe 2 t1 [] [] None
         [trend "t" tenth 3 [mkKeyword "a" 10]])
    = 3.
Proof.
  split; [reflexivity |].
  exact (proj1 (processTrend_no_stream_data describe 2 t1 [] []
                  [trend "t" tenth 3 [mkKeyword "a" 10]]
                  (trend "t" tenth 3 [mkKeyword "a" 10]) eq_refl eq_refl)).
Defined.

(** A cycle without stream data moves the stored score off the double
    nearest to 0.1. *)
Example processTrend_no_stream_data_drift :
  Trend.sentiment_score
    (writtenTrend describe 2 t1 [] [] None
       [trend "t" tenth 3 [mkKeyword "a" 10]])
  = 0x1.999999999999bp-4.
Proof. vm_compute. reflexivity. Qed.

End RunScenarios.
